(** * NV21 (YUV 4:2:0 semi-planar) to ARGB8888 conversion

    Shallow embedding of [android/src/main/cpp/yuv_to_rgb.cpp]:
    the helper [clamp] and the JNI entry point
    [Java_com_mrousavy_camera_core_FaceDetectionRecorder_]
    [nativeYUV420toARGB8888].

    Conventions of the embedding.
    - C++ [int] / JNI [jint] is a [Z] in [-2^31, 2^31); every signed
      operation of the source is followed by [wrap32], the two's complement
      wrap-around, so that the model is total.  A second, checked reading of
      the per-pixel arithmetic ([Checked]) fails instead of wrapping and is
      used to show that the wrap never happens.
    - [jbyte] is a [Z]; the source only ever reads it through [0xff & _].
    - The two Java arrays are [list Z].  The source indexes them without
      any bounds check, so an access outside an array is undefined
      behaviour; the model marks the place with [Fault] and goes no
      further.  What the code is shown to do is stated for runs that
      return, where every access is inside its array. *)

From Stdlib Require Import ZArith Lia Bool.
From stdpp Require Import list.

Local Open Scope Z_scope.

(** ** Machine integers *)

(** Value of an [int] expression whose exact result is [z]. *)
Definition wrap32 (z : Z) : Z := (z + 2 ^ 31) mod 2 ^ 32 - 2 ^ 31.

(** Conversion of an [int] to [unsigned int]. *)
Definition to_unsigned (z : Z) : Z := z mod 2 ^ 32.

(** Range of [int]. *)
Definition int32 (z : Z) : Prop := - 2 ^ 31 <= z < 2 ^ 31.

Definition int32b (z : Z) : bool := (- 2 ^ 31 <=? z) && (z <? 2 ^ 31).

(** ** [clamp]  (source lines 7-9)

    [inline uint8_t clamp(int x)]:
    [(x < 0) ? 0 : ((x > 255) ? 255 : static_cast<uint8_t>(x))].
    The cast to [uint8_t] is reduction modulo 256. *)
Definition clamp (x : Z) : Z :=
  if x <? 0 then 0 else if x >? 255 then 255 else x mod 256.

(** ** Per-pixel arithmetic  (source lines 26-44) *)

(** [0xff & yuv[k]]: the unsigned value of a stored byte. *)
Definition ubyte (b : Z) : Z := Z.land 255 b.

(** Lines 26-28: [int y = (0xff & yuv[yp]) - 16; if (y < 0) y = 0;] *)
Definition luma (yb : Z) : Z :=
  let y := wrap32 (ubyte yb - 16) in
  if y <? 0 then 0 else y.

(** Lines 31-32: [(0xff & yuv[uvp++]) - 128]. *)
Definition chroma (cb : Z) : Z := wrap32 (ubyte cb - 128).

(** Line 35. *)
Definition y1192 (y : Z) : Z := wrap32 (1192 * y).

(** Lines 36-38: the three pre-clamp channel sums. *)
Definition r_pre (y v : Z) : Z := wrap32 (y1192 y + wrap32 (1634 * v)).
Definition g_pre (y u v : Z) : Z :=
  wrap32 (wrap32 (y1192 y - wrap32 (833 * v)) - wrap32 (400 * u)).
Definition b_pre (y u : Z) : Z := wrap32 (y1192 y + wrap32 (2066 * u)).

(** Lines 40-42: [c = clamp((c >> 10) + 2)]. *)
Definition channel (c : Z) : Z := clamp (wrap32 (Z.shiftr c 10 + 2)).

(** Line 44: [0xff000000 | (r << 16) | (g << 8) | b].  The literal
    [0xff000000] does not fit [int], so it is an [unsigned int]; each [int]
    operand is converted to [unsigned int], the result is an
    [unsigned int], and the store into the [jint] array converts it back. *)
Definition pack (r g b : Z) : Z :=
  Z.lor (Z.lor (Z.lor 4278190080 (to_unsigned (wrap32 (Z.shiftl r 16))))
               (to_unsigned (wrap32 (Z.shiftl g 8))))
        (to_unsigned b).

(** The [jint] stored at [rgb[yp]] for the accumulator [(y, u, v)]. *)
Definition argb (y u v : Z) : Z :=
  let r := channel (r_pre y v) in
  let g := channel (g_pre y u v) in
  let b := channel (b_pre y u) in
  wrap32 (pack r g b).

(** Fields of an output word, read the way a consumer would:
    [(w >> 24) & 0xff] and so on. *)
Definition alpha (w : Z) : Z := Z.land (Z.shiftr w 24) 255.
Definition red (w : Z) : Z := Z.land (Z.shiftr w 16) 255.
Definition green (w : Z) : Z := Z.land (Z.shiftr w 8) 255.
Definition blue (w : Z) : Z := Z.land w 255.

(** ** Checked reading of the per-pixel arithmetic

    Signed overflow is undefined in C++; here every signed operation
    returns [None] when its exact result leaves the range of [int]. *)
Module Checked.

Definition ret (z : Z) : option Z := if int32b z then Some z else None.

Definition luma (yb : Z) : option Z :=
  y ← ret (ubyte yb - 16);
  Some (if y <? 0 then 0 else y).

Definition chroma (cb : Z) : option Z := ret (ubyte cb - 128).

Definition channel (c : Z) : option Z :=
  s ← ret (Z.shiftr c 10);
  t ← ret (s + 2);
  Some (clamp t).

Definition argb (y u v : Z) : option Z :=
  y1192 ← ret (1192 * y);
  rv ← ret (1634 * v);
  r ← ret (y1192 + rv);
  gv ← ret (833 * v);
  g1 ← ret (y1192 - gv);
  gu ← ret (400 * u);
  g ← ret (g1 - gu);
  bu ← ret (2066 * u);
  b ← ret (y1192 + bu);
  r ← channel r;
  g ← channel g;
  b ← channel b;
  r16 ← ret (Z.shiftl r 16);
  g8 ← ret (Z.shiftl g 8);
  Some (wrap32 (Z.lor (Z.lor (Z.lor 4278190080 (to_unsigned r16))
                             (to_unsigned g8))
                      (to_unsigned b))).

(** One pixel from its three stored bytes. *)
Definition pixel (yb ub vb : Z) : option Z :=
  y ← luma yb;
  v ← chroma vb;
  u ← chroma ub;
  argb y u v.

End Checked.

(** ** The conversion loop  (source lines 17-48) *)

(** Outcome of a run: normal completion, or the point where an access
    leaves an array (undefined behaviour in the source, not modelled
    further). *)
Inductive outcome (A : Type) : Type :=
| Ok (a : A)
| Fault (a : A).
Arguments Ok {A} a.
Arguments Fault {A} a.

(** [for (int x = x0; x < x0 + n; x++) body]; the bound is not modified by
    the body, and [x] stays below it, so the counter never wraps. *)
Fixpoint for_loop {A : Type} (body : Z -> A -> outcome A)
    (x : Z) (n : nat) (s : A) : outcome A :=
  match n with
  | O => Ok s
  | S n' =>
      match body x s with
      | Ok s' => for_loop body (x + 1) n' s'
      | Fault s' => Fault s'
      end
  end.

(** Array read [a[k]]. *)
Definition load (a : list Z) (k : Z) : option Z :=
  if 0 <=? k then a !! Z.to_nat k else None.

(** Array write [a[k] = w]. *)
Definition store (a : list Z) (k : Z) (w : Z) : option (list Z) :=
  if (0 <=? k) && (k <? Z.of_nat (length a))
  then Some (<[Z.to_nat k := w]> a) else None.

(** Local variables of the loop nest, with the output array. *)
Record state : Type := mkState {
  yp : Z;
  uvp : Z;
  u : Z;
  v : Z;
  rgb : list Z
}.

(** Lines 30-33: fetch a [(V, U)] pair at even [x], else reuse. *)
Definition fetch_chroma (yuv : list Z) (x : Z) (s : state)
    : option (Z * Z * Z) :=
  if Z.land x 1 =? 0 then
    vb ← load yuv (uvp s);
    ub ← load yuv (wrap32 (uvp s + 1));
    Some (wrap32 (wrap32 (uvp s + 1) + 1), chroma ub, chroma vb)
  else Some (uvp s, u s, v s).

(** Lines 26-46: body of the inner loop. *)
Definition pixel_step (yuv : list Z) (x : Z) (s : state) : outcome state :=
  match load yuv (yp s) with
  | None => Fault s
  | Some yb =>
      let y := luma yb in
      match fetch_chroma yuv x s with
      | None => Fault s
      | Some (uvp', u', v') =>
          match store (rgb s) (yp s) (argb y u' v') with
          | None => Fault s
          | Some rgb' => Ok (mkState (wrap32 (yp s + 1)) uvp' u' v' rgb')
          end
      end
  end.

(** Line 17: [int frameSize = width * height]. *)
Definition frameSize (width height : Z) : Z := wrap32 (width * height).

(** Line 21: [frameSize + (i >> 1) * width]. *)
Definition row_uvp (width height i : Z) : Z :=
  wrap32 (frameSize width height + wrap32 (Z.shiftr i 1 * width)).

(** Lines 21-47: body of the outer loop. *)
Definition row_step (yuv : list Z) (width height : Z) (i : Z) (s : state)
    : outcome state :=
  for_loop (pixel_step yuv) 0 (Z.to_nat width)
           (mkState (yp s) (row_uvp width height i) 0 0 (rgb s)).

(** How a run ends: it returns with the output buffer, or reaches an
    access outside an array, the buffer being as it is at that point. *)
Inductive result : Type :=
| Returned (out : list Z)
| Faulted (out : list Z).

(** The entry point, on the contents of [yuv420sp] and [rgbOut]. *)
Definition nativeYUV420toARGB8888 (yuv : list Z) (width height : Z)
    (rgbOut : list Z) : result :=
  match for_loop (row_step yuv width height) 0 (Z.to_nat height)
                 (mkState 0 0 0 0 rgbOut) with
  | Ok s => Returned (rgb s)
  | Fault s => Faulted (rgb s)
  end.

(** ** Frames *)

(** A frame the caller may present: positive even dimensions, an input of
    [width*height*3/2] bytes, an output of [width*height] words; a Java
    array has at most [2^31 - 1] elements. *)
Definition valid_frame (yuv : list Z) (width height : Z) (rgbOut : list Z)
    : Prop :=
  0 < width /\ 0 < height /\
  Z.even width = true /\ Z.even height = true /\
  Z.of_nat (length yuv) = width * height * 3 / 2 /\
  Z.of_nat (length rgbOut) = width * height /\
  Z.of_nat (length yuv) < 2 ^ 31.

(** Byte stored at offset [k] of the input (0 outside it). *)
Definition byte_at (yuv : list Z) (k : Z) : Z := default 0 (load yuv k).

(** Offset of the V byte used by the pixel at column [x] of row [i]. *)
Definition v_offset (width height i x : Z) : Z :=
  width * height + Z.shiftr i 1 * width + 2 * Z.shiftr x 1.

(** The word the pixel at column [x] of row [i] is expected to receive. *)
Definition pixel_word (yuv : list Z) (width height i x : Z) : Z :=
  argb (luma (byte_at yuv (i * width + x)))
       (chroma (byte_at yuv (v_offset width height i x + 1)))
       (chroma (byte_at yuv (v_offset width height i x))).

(** Word expected at index [k] of the output. *)
Definition word_at (yuv : list Z) (width height k : Z) : Z :=
  pixel_word yuv width height (k / width) (k mod width).

(** Invariant of the inner loop, before the pixel at column [x] of
    row [i]. *)
Definition pixel_inv (yuv : list Z) (width height : Z) (rgbOut : list Z)
    (i x : Z) (s : state) : Prop :=
  yp s = i * width + x
  /\ uvp s = width * height + i / 2 * width + 2 * ((x + 1) / 2)
  /\ (Z.odd x = true ->
      u s = chroma (byte_at yuv (v_offset width height i x + 1))
      /\ v s = chroma (byte_at yuv (v_offset width height i x)))
  /\ length (rgb s) = length rgbOut
  /\ (forall k, 0 <= k < yp s ->
      rgb s !! Z.to_nat k = Some (word_at yuv width height k))
  /\ (forall k, yp s <= k -> rgb s !! Z.to_nat k = rgbOut !! Z.to_nat k).

(** Invariant of the outer loop, before row [i]. *)
Definition row_inv (yuv : list Z) (width height : Z) (rgbOut : list Z)
    (i : Z) (s : state) : Prop :=
  yp s = i * width
  /\ length (rgb s) = length rgbOut
  /\ (forall k, 0 <= k < yp s ->
      rgb s !! Z.to_nat k = Some (word_at yuv width height k))
  /\ (forall k, yp s <= k -> rgb s !! Z.to_nat k = rgbOut !! Z.to_nat k).

(** ** The specification's wording of a pixel *)

(** The output word as the specification words it, over unbounded
    integers: [Y], [U], [V] are the unsigned byte samples. *)
Definition spec_word (Y U V : Z) : Z :=
  let y' := Z.max 0 (Y - 16) in
  let u' := U - 128 in
  let v' := V - 128 in
  let R_pre := 1192 * y' + 1634 * v' in
  let G_pre := 1192 * y' - 833 * v' - 400 * u' in
  let B_pre := 1192 * y' + 2066 * u' in
  let R := clamp (Z.shiftr R_pre 10 + 2) in
  let G := clamp (Z.shiftr G_pre 10 + 2) in
  let B := clamp (Z.shiftr B_pre 10 + 2) in
  Z.lor (Z.lor (Z.lor 0xFF000000 (Z.shiftl R 16)) (Z.shiftl G 8)) B.

(** ** Gray and black frames *)

(** Channel value of a pixel with luma sample [Y] and neutral chroma. *)
Definition gray_level (Y : Z) : Z :=
  blue (argb (luma Y) (chroma 128) (chroma 128)).

(** Luma samples in the studio range and neutral chroma everywhere. *)
Definition gray_frame (yuv : list Z) (width height : Z) : Prop :=
  forall (n : nat) (b : Z), yuv !! n = Some b ->
    (Z.of_nat n < width * height -> 16 <= ubyte b <= 235)
    /\ (width * height <= Z.of_nat n -> ubyte b = 128).

(** Every luma sample at the pedestal and neutral chroma everywhere. *)
Definition black_frame (yuv : list Z) (width height : Z) : Prop :=
  forall (n : nat) (b : Z), yuv !! n = Some b ->
    (Z.of_nat n < width * height -> ubyte b = 16)
    /\ (width * height <= Z.of_nat n -> ubyte b = 128).

(** ** Properties of the state a run ends in *)

(** A property of the state a run ends in, however it ends. *)
Definition ends_with (P : state -> Prop) (o : outcome state) : Prop :=
  match o with
  | Ok s => P s
  | Fault s => P s
  end.


(** ** Frames of any positive dimensions *)

(** The input covers every byte the loop nest reads for a [width] x
    [height] frame, odd dimensions included: the last chroma pair read
    starts at [width*height + ((height-1)>>1)*width + 2*((width-1)>>1)]. *)
Definition enough_input (yuv : list Z) (width height : Z) : Prop :=
  0 < width /\ 0 < height
  /\ width * height + (height - 1) / 2 * width + 2 * ((width + 1) / 2)
     <= Z.of_nat (length yuv)
  /\ Z.of_nat (length yuv) < 2 ^ 31.

(** The output array is shorter than the frame and every one of its words
    has been written. *)
Definition filled (yuv : list Z) (width height : Z) (rgbOut : list Z)
    (s : state) : Prop :=
  length (rgb s) = length rgbOut
  /\ Z.of_nat (length rgbOut) < width * height
  /\ (forall k, 0 <= k < Z.of_nat (length rgbOut) ->
      rgb s !! Z.to_nat k = Some (word_at yuv width height k)).

(** Every word of the buffer is the caller's or an opaque pixel. *)
Definition opaque_or_kept (rgbOut : list Z) (s : state) : Prop :=
  length (rgb s) = length rgbOut
  /\ forall (n : nat) (w : Z), rgb s !! n = Some w ->
       rgbOut !! n = Some w \/ (alpha w = 0xFF /\ - 2 ^ 24 <= w < 0).

(** The buffer a run ends with. *)
Definition final_buffer (r : result) : list Z :=
  match r with
  | Returned out => out
  | Faulted out => out
  end.


(** * Properties *)

Example frame_black :
  nativeYUV420toARGB8888 [16; 16; 16; 16; 128; 128] 2 2 [0; 0; 0; 0]
  = Returned [-16645630; -16645630; -16645630; -16645630].
Proof. vm_compute. reflexivity. Qed.


(** ** Machine integers *)

Lemma wrap32_id z : int32 z -> wrap32 z = z.
Proof.
  unfold int32, wrap32. intros Hz.
  rewrite Z.mod_small by lia. lia.
Qed.

Lemma wrap32_range z : int32 (wrap32 z).
Proof.
  unfold int32, wrap32.
  pose proof (Z.mod_pos_bound (z + 2 ^ 31) (2 ^ 32) ltac:(lia)). lia.
Qed.

Lemma int32b_true z : int32 z -> int32b z = true.
Proof. unfold int32, int32b. intros Hz. apply andb_true_iff. lia. Qed.

Lemma ret_int32 z : int32 z -> Checked.ret z = Some z.
Proof. intros Hz. unfold Checked.ret. now rewrite int32b_true. Qed.

Lemma ubyte_mod b : ubyte b = b mod 256.
Proof.
  unfold ubyte. rewrite Z.land_comm.
  change 255 with (Z.ones 8). now rewrite Z.land_ones by lia.
Qed.

Lemma ubyte_range b : 0 <= ubyte b <= 255.
Proof.
  rewrite ubyte_mod. pose proof (Z.mod_pos_bound b 256 ltac:(lia)). lia.
Qed.

Lemma ubyte_small b : 0 <= b <= 255 -> ubyte b = b.
Proof. intros Hb. rewrite ubyte_mod. apply Z.mod_small. lia. Qed.

Lemma shiftr10_div c : Z.shiftr c 10 = c / 1024.
Proof. now rewrite Z.shiftr_div_pow2 by lia. Qed.

(** ** [clamp] *)

Lemma clamp_cases x :
  (x < 0 /\ clamp x = 0) \/ (0 <= x <= 255 /\ clamp x = x)
  \/ (255 < x /\ clamp x = 255).
Proof.
  unfold clamp.
  destruct (Z.ltb_spec x 0); [lia|].
  destruct (Z.gtb_spec x 255) as [Hgt|Hle]; [lia|].
  right; left. split; [lia|]. apply Z.mod_small. lia.
Qed.

Lemma clamp_range x : 0 <= clamp x <= 255.
Proof. destruct (clamp_cases x) as [?|[?|?]]; lia. Qed.

Lemma clamp_mono x1 x2 : x1 <= x2 -> clamp x1 <= clamp x2.
Proof.
  intros Hle.
  destruct (clamp_cases x1) as [?|[?|?]], (clamp_cases x2) as [?|[?|?]]; lia.
Qed.

(** ** The accumulator *)

Lemma luma_max yb : luma yb = Z.max 0 (ubyte yb - 16).
Proof.
  unfold luma. pose proof (ubyte_range yb).
  rewrite wrap32_id by (unfold int32; lia).
  destruct (Z.ltb_spec (ubyte yb - 16) 0); lia.
Qed.

Lemma luma_range yb : 0 <= luma yb <= 239.
Proof. rewrite luma_max. pose proof (ubyte_range yb). lia. Qed.

Lemma chroma_sub cb : chroma cb = ubyte cb - 128.
Proof.
  unfold chroma. pose proof (ubyte_range cb).
  apply wrap32_id. unfold int32. lia.
Qed.

Lemma chroma_range cb : -128 <= chroma cb <= 127.
Proof. rewrite chroma_sub. pose proof (ubyte_range cb). lia. Qed.

Section Accumulator.

Variables y u v : Z.
Hypothesis Hy : 0 <= y <= 255.
Hypothesis Hu : -128 <= u <= 128.
Hypothesis Hv : -128 <= v <= 128.

Lemma y1192_exact : y1192 y = 1192 * y.
Proof. apply wrap32_id. unfold int32. lia. Qed.

Lemma r_pre_exact : r_pre y v = 1192 * y + 1634 * v.
Proof.
  unfold r_pre. rewrite y1192_exact.
  rewrite (wrap32_id (1634 * v)) by (unfold int32; lia).
  apply wrap32_id. unfold int32. lia.
Qed.

Lemma g_pre_exact : g_pre y u v = 1192 * y - 833 * v - 400 * u.
Proof.
  unfold g_pre. rewrite y1192_exact.
  rewrite (wrap32_id (833 * v)), (wrap32_id (400 * u))
    by (unfold int32; lia).
  rewrite (wrap32_id (1192 * y - 833 * v)) by (unfold int32; lia).
  apply wrap32_id. unfold int32. lia.
Qed.

Lemma b_pre_exact : b_pre y u = 1192 * y + 2066 * u.
Proof.
  unfold b_pre. rewrite y1192_exact.
  rewrite (wrap32_id (2066 * u)) by (unfold int32; lia).
  apply wrap32_id. unfold int32. lia.
Qed.

End Accumulator.

Lemma channel_exact c :
  - 2 ^ 30 <= c <= 2 ^ 30 -> channel c = clamp (Z.shiftr c 10 + 2).
Proof.
  intros Hc. unfold channel. f_equal. apply wrap32_id.
  rewrite shiftr10_div. unfold int32.
  pose proof (Z.div_le_mono _ _ 1024 ltac:(lia) (proj1 Hc)) as Hlo.
  pose proof (Z.div_le_mono _ _ 1024 ltac:(lia) (proj2 Hc)) as Hhi.
  change (- 2 ^ 30 / 1024) with (- 1048576) in Hlo.
  change (2 ^ 30 / 1024) with 1048576 in Hhi. lia.
Qed.

Lemma channel_range c : 0 <= channel c <= 255.
Proof. apply clamp_range. Qed.

(** ** Packing *)

Lemma lor_low_bits a b k :
  0 <= k -> 0 <= b < 2 ^ k -> Z.lor (a * 2 ^ k) b = a * 2 ^ k + b.
Proof.
  intros Hk Hb.
  rewrite <- (Z.add_lor_land (a * 2 ^ k) b).
  assert (Hdisj : Z.land (a * 2 ^ k) b = 0).
  { apply Z.bits_inj'. intros n Hn.
    rewrite Z.land_spec, Z.bits_0.
    destruct (Z.lt_ge_cases n k) as [Hlt|Hge].
    - rewrite Z.mul_pow2_bits_low by lia. reflexivity.
    - assert (Hbn : Z.testbit b n = false).
      { apply (Z.testbit_false b n Hn).
        rewrite Z.div_small; [reflexivity|].
        split; [lia|]. apply Z.lt_le_trans with (2 ^ k); [lia|].
        apply Z.pow_le_mono_r; lia. }
      rewrite Hbn. apply andb_false_r. }
  rewrite Hdisj. lia.
Qed.

Lemma pack_sum r g b :
  0 <= r <= 255 -> 0 <= g <= 255 -> 0 <= b <= 255 ->
  pack r g b = 4278190080 + r * 65536 + g * 256 + b.
Proof.
  intros Hr Hg Hb. unfold pack, to_unsigned.
  rewrite !Z.shiftl_mul_pow2 by lia.
  rewrite !wrap32_id by (unfold int32; lia).
  rewrite !Z.mod_small by lia.
  replace 4278190080 with (255 * 2 ^ 24) by reflexivity.
  rewrite (lor_low_bits 255 (r * 2 ^ 16) 24) by lia.
  replace (255 * 2 ^ 24 + r * 2 ^ 16) with ((65280 + r) * 2 ^ 16) by lia.
  rewrite (lor_low_bits (65280 + r) (g * 2 ^ 8) 16) by lia.
  replace ((65280 + r) * 2 ^ 16 + g * 2 ^ 8)
    with ((16711680 + r * 256 + g) * 2 ^ 8) by lia.
  rewrite (lor_low_bits _ b 8) by lia.
  lia.
Qed.

Lemma argb_sum y u v :
  argb y u v
  = channel (r_pre y v) * 65536 + channel (g_pre y u v) * 256
    + channel (b_pre y u) - 16777216.
Proof.
  unfold argb.
  pose proof (channel_range (r_pre y v)).
  pose proof (channel_range (g_pre y u v)).
  pose proof (channel_range (b_pre y u)).
  rewrite pack_sum by assumption.
  unfold wrap32. Z.div_mod_to_equations. lia.
Qed.

Lemma land255_mod w : Z.land w 255 = w mod 256.
Proof. change 255 with (Z.ones 8). now rewrite Z.land_ones by lia. Qed.

Lemma word_fields r g b :
  0 <= r <= 255 -> 0 <= g <= 255 -> 0 <= b <= 255 ->
  let w := r * 65536 + g * 256 + b - 16777216 in
  alpha w = 255 /\ red w = r /\ green w = g /\ blue w = b.
Proof.
  intros Hr Hg Hb w. unfold alpha, red, green, blue.
  rewrite !land255_mod, !Z.shiftr_div_pow2 by lia. subst w.
  change (2 ^ 24) with 16777216. change (2 ^ 16) with 65536.
  change (2 ^ 8) with 256.
  repeat split; Z.div_mod_to_equations; lia.
Qed.

Lemma alpha_eq w : alpha w = Z.land (Z.shiftr w 24) 0xFF.
Proof. reflexivity. Qed.

Lemma argb_fields y u v :
  alpha (argb y u v) = 255
  /\ red (argb y u v) = channel (r_pre y v)
  /\ green (argb y u v) = channel (g_pre y u v)
  /\ blue (argb y u v) = channel (b_pre y u).
Proof.
  rewrite argb_sum.
  apply word_fields; apply channel_range.
Qed.

(** ** Arrays *)

Lemma load_Some a k :
  0 <= k < Z.of_nat (length a) -> load a k = Some (default 0 (load a k)).
Proof.
  intros Hk. unfold load.
  destruct (Z.leb_spec 0 k); [|lia].
  destruct (lookup_lt_is_Some_2 a (Z.to_nat k) ltac:(lia)) as [b Hb].
  now rewrite Hb.
Qed.

Lemma store_Some a k w :
  0 <= k < Z.of_nat (length a) -> store a k w = Some (<[Z.to_nat k := w]> a).
Proof.
  intros Hk. unfold store.
  destruct (Z.leb_spec 0 k); [|lia].
  destruct (Z.ltb_spec k (Z.of_nat (length a))); [|lia].
  reflexivity.
Qed.

Lemma shiftr1_div i : Z.shiftr i 1 = i / 2.
Proof. now rewrite Z.shiftr_div_pow2 by lia. Qed.

Lemma land1_mod x : Z.land x 1 = x mod 2.
Proof. change 1 with (Z.ones 1) at 1. now rewrite Z.land_ones by lia. Qed.

Lemma odd_mod2 x : Z.odd x = true <-> x mod 2 = 1.
Proof. rewrite Zmod_odd. destruct (Z.odd x); split; (lia || congruence). Qed.

Lemma div_row w i x : 0 <= x < w -> (i * w + x) / w = i.
Proof.
  intros Hx. symmetry. apply (Z.div_unique _ _ i x); [left; lia | lia].
Qed.

Lemma mod_row w i x : 0 <= x < w -> (i * w + x) mod w = x.
Proof.
  intros Hx. symmetry. apply (Z.mod_unique _ _ i x); [left; lia | lia].
Qed.

(** ** The loop nest on a valid frame *)

Section ValidFrame.

Variables (yuv : list Z) (width height : Z) (rgbOut : list Z).
Hypothesis Hvalid : valid_frame yuv width height rgbOut.

Lemma width_pos : 0 < width.
Proof. apply Hvalid. Qed.

Lemma height_pos : 0 < height.
Proof. apply Hvalid. Qed.

Lemma width_even : width = 2 * (width / 2).
Proof.
  destruct Hvalid as (_ & _ & Hw & _).
  apply Z.even_spec in Hw. destruct Hw as [c ->].
  rewrite (Z.mul_comm 2 c), Z.div_mul by lia. lia.
Qed.

Lemma height_even : height = 2 * (height / 2).
Proof.
  destruct Hvalid as (_ & _ & _ & Hh & _).
  apply Z.even_spec in Hh. destruct Hh as [c ->].
  rewrite (Z.mul_comm 2 c), Z.div_mul by lia. lia.
Qed.

Lemma yuv_length :
  Z.of_nat (length yuv) = width * height + height / 2 * width.
Proof.
  destruct Hvalid as (_ & _ & _ & _ & Hlen & _).
  rewrite Hlen.
  pose proof height_even as Hh.
  set (h2 := height / 2) in *. rewrite Hh.
  replace (width * (2 * h2) * 3) with ((3 * (width * h2)) * 2) by ring.
  rewrite Z.div_mul by lia. ring.
Qed.

Lemma rgb_length : Z.of_nat (length rgbOut) = width * height.
Proof. apply Hvalid. Qed.

Lemma yuv_small : width * height + height / 2 * width < 2 ^ 31.
Proof. rewrite <- yuv_length. apply Hvalid. Qed.

(** Row [i] of the luma plane lies inside the plane. *)
Lemma luma_row i :
  0 <= i < height -> 0 <= i * width /\ i * width + width <= width * height.
Proof.
  intros Hi. pose proof width_pos. split; [nia|].
  replace (i * width + width) with (width * (i + 1)) by ring.
  apply Z.mul_le_mono_nonneg_l; lia.
Qed.

(** So does the chroma row it uses. *)
Lemma chroma_row i :
  0 <= i < height ->
  0 <= i / 2 * width /\ i / 2 * width + width <= height / 2 * width.
Proof.
  intros Hi. pose proof width_pos. pose proof height_even.
  assert (0 <= i / 2 < height / 2) as Hq
    by (Z.div_mod_to_equations; lia).
  split; [nia|].
  replace (i / 2 * width + width) with ((i / 2 + 1) * width) by ring.
  apply Z.mul_le_mono_nonneg_r; lia.
Qed.

Lemma frameSize_nonneg : 0 <= width * height.
Proof.
  pose proof width_pos. pose proof height_pos. nia.
Qed.

Lemma word_at_row i x :
  0 <= x < width ->
  word_at yuv width height (i * width + x) = pixel_word yuv width height i x.
Proof.
  intros Hx. unfold word_at. now rewrite div_row, mod_row.
Qed.

Lemma v_offset_eq i x :
  v_offset width height i x = width * height + i / 2 * width + 2 * (x / 2).
Proof. unfold v_offset. now rewrite !shiftr1_div. Qed.

Lemma pixel_step_ok i x s :
  0 <= i < height -> 0 <= x < width ->
  pixel_inv yuv width height rgbOut i x s ->
  exists s', pixel_step yuv x s = Ok s'
             /\ pixel_inv yuv width height rgbOut i (x + 1) s'.
Proof.
  intros Hi Hx (Hyp & Huvp & Huv & Hlen & Hdone & Htodo).
  pose proof (luma_row i Hi) as [Hr0 Hr1].
  pose proof (chroma_row i Hi) as [Hc0 Hc1].
  pose proof yuv_length as Hyl. pose proof rgb_length as Hrl.
  pose proof yuv_small as Hys. pose proof frameSize_nonneg as Hfs.
  pose proof width_even as Hwe.
  unfold pixel_step.
  rewrite (load_Some yuv (yp s)) by lia.
  fold (byte_at yuv (yp s)).
  assert (Hfetch : fetch_chroma yuv x s
            = Some (width * height + i / 2 * width + 2 * ((x + 2) / 2),
                    chroma (byte_at yuv (v_offset width height i x + 1)),
                    chroma (byte_at yuv (v_offset width height i x)))).
  { unfold fetch_chroma. rewrite land1_mod, v_offset_eq.
    destruct (Z.eqb_spec (x mod 2) 0) as [Hev|Hodd].
    - assert (Hx2 : x = 2 * (x / 2)) by (Z.div_mod_to_equations; lia).
      assert (Hx1 : (x + 1) / 2 = x / 2) by (Z.div_mod_to_equations; lia).
      assert (Hx3 : (x + 2) / 2 = x / 2 + 1)
        by (Z.div_mod_to_equations; lia).
      assert (Hxw : 2 * (x / 2) + 2 <= width) by lia.
      rewrite Huvp, Hx1, Hx3.
      set (a := width * height + i / 2 * width + 2 * (x / 2)).
      assert (Ha : 0 <= a /\ a + 2 <= Z.of_nat (length yuv))
        by (subst a; lia).
      rewrite (wrap32_id (a + 1)) by (unfold int32; lia).
      rewrite (wrap32_id (a + 1 + 1)) by (unfold int32; lia).
      rewrite (load_Some yuv a), (load_Some yuv (a + 1)) by lia.
      cbn. unfold byte_at. do 3 f_equal. subst a. lia.
    - assert (Hod : Z.odd x = true).
      { apply odd_mod2. Z.div_mod_to_equations; lia. }
      destruct (Huv Hod) as [-> ->]. rewrite Huvp, v_offset_eq.
      do 3 f_equal. Z.div_mod_to_equations; lia. }
  rewrite Hfetch.
  rewrite store_Some by lia.
  eexists; split; [reflexivity|].
  unfold pixel_inv; cbn [yp uvp u v rgb].
  rewrite (wrap32_id (yp s + 1)) by (unfold int32; lia).
  split; [lia|]. split; [do 3 f_equal; lia|].
  split; [|split; [|split]].
  - intros Hod. rewrite !v_offset_eq.
    replace ((x + 1) / 2) with (x / 2); [done|].
    apply odd_mod2 in Hod. Z.div_mod_to_equations; lia.
  - rewrite length_insert. lia.
  - intros k Hk.
    destruct (Z.eq_dec k (yp s)) as [->|Hne].
    + rewrite list_lookup_insert_eq by lia.
      f_equal. rewrite Hyp, word_at_row by lia.
      unfold pixel_word. now rewrite <- Hyp.
    + rewrite list_lookup_insert_ne by lia. apply Hdone. lia.
  - intros k Hk. rewrite list_lookup_insert_ne by lia. apply Htodo. lia.
Qed.

Lemma row_loop_ok i n : forall x s,
  0 <= i < height -> 0 <= x -> x + Z.of_nat n = width ->
  pixel_inv yuv width height rgbOut i x s ->
  exists s', for_loop (pixel_step yuv) x n s = Ok s'
             /\ pixel_inv yuv width height rgbOut i width s'.
Proof.
  induction n as [|n IH]; intros x s Hi Hx Hn Hinv.
  - exists s. split; [reflexivity|].
    assert (Hxw : x = width) by lia. now subst x.
  - destruct (pixel_step_ok i x s) as (s1 & Hstep & Hinv1);
      [lia | lia | assumption |].
    cbn [for_loop]. rewrite Hstep.
    apply IH; [lia | lia | lia | assumption].
Qed.

Lemma row_step_ok i s :
  0 <= i < height -> row_inv yuv width height rgbOut i s ->
  exists s', row_step yuv width height i s = Ok s'
             /\ row_inv yuv width height rgbOut (i + 1) s'.
Proof.
  intros Hi (Hyp & Hlen & Hdone & Htodo).
  pose proof (chroma_row i Hi) as [Hc0 Hc1].
  pose proof yuv_small as Hys. pose proof frameSize_nonneg as Hfs.
  pose proof width_pos as Hw.
  unfold row_step.
  destruct (row_loop_ok i (Z.to_nat width) 0
              (mkState (yp s) (row_uvp width height i) 0 0 (rgb s)))
    as (s' & Hrun & Hyp' & _ & _ & Hlen' & Hdone' & Htodo');
    [lia | lia | lia | |].
  - unfold pixel_inv; cbn [yp uvp u v rgb].
    split; [lia|]. split; [|split; [discriminate|done]].
    unfold row_uvp, frameSize. rewrite shiftr1_div.
    rewrite (wrap32_id (width * height)) by (unfold int32; lia).
    rewrite (wrap32_id (i / 2 * width)) by (unfold int32; lia).
    change ((0 + 1) / 2) with 0.
    rewrite wrap32_id by (unfold int32; lia). lia.
  - exists s'. split; [assumption|].
    unfold row_inv. split; [lia|done].
Qed.

Lemma frame_loop_ok n : forall i s,
  0 <= i -> i + Z.of_nat n = height -> row_inv yuv width height rgbOut i s ->
  exists s', for_loop (row_step yuv width height) i n s = Ok s'
             /\ row_inv yuv width height rgbOut height s'.
Proof.
  induction n as [|n IH]; intros i s Hi Hn Hinv.
  - exists s. split; [reflexivity|].
    assert (Hih : i = height) by lia. now subst i.
  - destruct (row_step_ok i s) as (s1 & Hstep & Hinv1);
      [lia | assumption |].
    cbn [for_loop]. rewrite Hstep.
    apply IH; [lia | lia | assumption].
Qed.

(** On a valid frame the converter returns, and every output word is
    the one computed from the pixel's luma byte and the chroma pair of
    its 2x2 block. *)
Lemma convert_valid :
  exists out,
    nativeYUV420toARGB8888 yuv width height rgbOut = Returned out
    /\ Z.of_nat (length out) = width * height
    /\ forall i x, 0 <= i < height -> 0 <= x < width ->
         out !! Z.to_nat (i * width + x)
         = Some (pixel_word yuv width height i x).
Proof.
  pose proof height_pos as Hh.
  destruct (frame_loop_ok (Z.to_nat height) 0 (mkState 0 0 0 0 rgbOut))
    as (s & Hrun & Hyp & Hlen & Hdone & _); [lia | lia | |].
  - unfold row_inv; cbn [yp rgb].
    split; [lia|]. split; [reflexivity|]. split; [intros; lia|done].
  - exists (rgb s). unfold nativeYUV420toARGB8888. rewrite Hrun.
    split; [reflexivity|]. split.
    + rewrite Hlen. apply rgb_length.
    + intros i x Hi Hx. pose proof (luma_row i Hi) as [Hr0 Hr1].
      rewrite Hdone, word_at_row by (rewrite ?Hyp; lia).
      reflexivity.
Qed.

(** Every word of the output is the word of some pixel. *)
Lemma convert_valid_words :
  exists out,
    nativeYUV420toARGB8888 yuv width height rgbOut = Returned out
    /\ Z.of_nat (length out) = width * height
    /\ (forall i x, 0 <= i < height -> 0 <= x < width ->
         out !! Z.to_nat (i * width + x)
         = Some (pixel_word yuv width height i x))
    /\ forall n w, out !! n = Some w ->
         exists i x, 0 <= i < height /\ 0 <= x < width
                     /\ n = Z.to_nat (i * width + x)
                     /\ w = pixel_word yuv width height i x.
Proof.
  destruct convert_valid as (out & Hrun & Hlen & Hpix).
  exists out. repeat (split; [assumption|]).
  intros n w Hn. pose proof (lookup_lt_Some _ _ _ Hn) as Hlt.
  pose proof width_pos as Hw.
  set (k := Z.of_nat n).
  assert (Hk : 0 <= k < width * height) by lia.
  assert (Hx : 0 <= k mod width < width) by (apply Z.mod_pos_bound; lia).
  assert (Hi : 0 <= k / width < height).
  { split; [apply Z.div_pos; lia|].
    apply Z.div_lt_upper_bound; lia. }
  assert (Hsplit : k = k / width * width + k mod width).
  { rewrite (Z.div_mod k width) at 1 by lia. ring. }
  exists (k / width), (k mod width).
  split; [assumption|]. split; [assumption|].
  split; [rewrite <- Hsplit; subst k; lia|].
  specialize (Hpix _ _ Hi Hx). rewrite <- Hsplit in Hpix.
  subst k. rewrite Nat2Z.id in Hpix. congruence.
Qed.

(** The bytes a pixel reads are bytes of the input. *)
Lemma pixel_bytes i x :
  0 <= i < height -> 0 <= x < width ->
  (0 <= i * width + x < Z.of_nat (length yuv))
  /\ (0 <= v_offset width height i x
      /\ v_offset width height i x + 1 < Z.of_nat (length yuv)).
Proof.
  intros Hi Hx.
  pose proof (luma_row i Hi) as [Hr0 Hr1].
  pose proof (chroma_row i Hi) as [Hc0 Hc1].
  pose proof yuv_length as Hyl. pose proof frameSize_nonneg as Hfs.
  pose proof width_even as Hwe. rewrite v_offset_eq.
  assert (0 <= 2 * (x / 2) /\ 2 * (x / 2) + 2 <= width)
    by (Z.div_mod_to_equations; lia).
  lia.
Qed.

End ValidFrame.

Lemma byte_at_lookup yuv k :
  0 <= k < Z.of_nat (length yuv) -> yuv !! Z.to_nat k = Some (byte_at yuv k).
Proof.
  intros Hk. pose proof (load_Some yuv k Hk) as Hl.
  unfold byte_at. unfold load in *.
  destruct (Z.leb_spec 0 k); [assumption|lia].
Qed.

Lemma lookup_byte_at yuv k b :
  0 <= k -> yuv !! Z.to_nat k = Some b -> byte_at yuv k = b.
Proof.
  intros Hk Hb. unfold byte_at, load.
  destruct (Z.leb_spec 0 k); [|lia]. now rewrite Hb.
Qed.

(** ** The per-pixel arithmetic against its specification *)

Lemma pack_plain r g b :
  0 <= r <= 255 -> 0 <= g <= 255 -> 0 <= b <= 255 ->
  pack r g b
  = Z.lor (Z.lor (Z.lor 0xFF000000 (Z.shiftl r 16)) (Z.shiftl g 8)) b.
Proof.
  intros Hr Hg Hb. unfold pack, to_unsigned.
  assert (H16 : Z.shiftl r 16 = r * 65536)
    by now rewrite Z.shiftl_mul_pow2 by lia.
  assert (H8 : Z.shiftl g 8 = g * 256)
    by now rewrite Z.shiftl_mul_pow2 by lia.
  rewrite H16, H8.
  rewrite !wrap32_id by (unfold int32; lia).
  now rewrite !Z.mod_small by lia.
Qed.

Lemma pack_range r g b :
  0 <= r <= 255 -> 0 <= g <= 255 -> 0 <= b <= 255 ->
  2 ^ 31 <= pack r g b < 2 ^ 32.
Proof. intros Hr Hg Hb. rewrite pack_sum by assumption. lia. Qed.

Lemma channels_exact yb ub vb :
  let y := luma yb in
  let u := chroma ub in
  let v := chroma vb in
  channel (r_pre y v) = clamp (Z.shiftr (1192 * y + 1634 * v) 10 + 2)
  /\ channel (g_pre y u v)
     = clamp (Z.shiftr (1192 * y - 833 * v - 400 * u) 10 + 2)
  /\ channel (b_pre y u) = clamp (Z.shiftr (1192 * y + 2066 * u) 10 + 2).
Proof.
  intros y u v.
  pose proof (luma_range yb). pose proof (chroma_range ub).
  pose proof (chroma_range vb).
  rewrite r_pre_exact, g_pre_exact, b_pre_exact by (subst y u v; lia).
  rewrite !channel_exact by (subst y u v; lia).
  auto.
Qed.

Lemma argb_spec_word yb ub vb :
  argb (luma yb) (chroma ub) (chroma vb)
  = wrap32 (spec_word (ubyte yb) (ubyte ub) (ubyte vb))
  /\ 0 <= spec_word (ubyte yb) (ubyte ub) (ubyte vb) < 2 ^ 32.
Proof.
  destruct (channels_exact yb ub vb) as (Hr & Hg & Hb).
  assert (Hp : pack (channel (r_pre (luma yb) (chroma vb)))
                    (channel (g_pre (luma yb) (chroma ub) (chroma vb)))
                    (channel (b_pre (luma yb) (chroma ub)))
               = spec_word (ubyte yb) (ubyte ub) (ubyte vb)).
  { rewrite pack_plain by apply channel_range.
    rewrite Hr, Hg, Hb, luma_max, !chroma_sub. reflexivity. }
  unfold argb. rewrite Hp. split; [reflexivity|].
  rewrite <- Hp.
  pose proof (pack_range _ _ _
                (channel_range (r_pre (luma yb) (chroma vb)))
                (channel_range (g_pre (luma yb) (chroma ub) (chroma vb)))
                (channel_range (b_pre (luma yb) (chroma ub)))).
  lia.
Qed.

Lemma to_unsigned_wrap32 z : 0 <= z < 2 ^ 32 -> to_unsigned (wrap32 z) = z.
Proof.
  intros Hz. unfold to_unsigned, wrap32.
  Z.div_mod_to_equations. lia.
Qed.

(** ** Claims *)

(** C1. For every pixel of a valid frame, with [Y], [U], [V] the unsigned
    byte samples it uses and [y' = max(0, Y - 16)], [u' = U - 128],
    [v' = V - 128], the converter computes [1192*y' + 1634*v'],
    [1192*y' - 833*v' - 400*u'] and [1192*y' + 2066*u'], shifts each right
    by 10 bits, adds 2, clamps with [clamp], and stores the 32-bit word
    [0xFF000000 | (R<<16) | (G<<8) | B]. *)
Theorem per_pixel_arithmetic yuv width height rgbOut :
  valid_frame yuv width height rgbOut ->
  exists out,
    nativeYUV420toARGB8888 yuv width height rgbOut = Returned out
    /\ forall i x, 0 <= i < height -> 0 <= x < width ->
       exists yb ub vb w,
         yuv !! Z.to_nat (i * width + x) = Some yb
         /\ yuv !! Z.to_nat (v_offset width height i x) = Some vb
         /\ yuv !! Z.to_nat (v_offset width height i x + 1) = Some ub
         /\ out !! Z.to_nat (i * width + x) = Some w
         /\ int32 w
         /\ to_unsigned w = spec_word (ubyte yb) (ubyte ub) (ubyte vb).
Proof.
  intros Hvalid.
  destruct (convert_valid _ _ _ _ Hvalid) as (out & Hrun & _ & Hpix).
  exists out. split; [assumption|]. intros i x Hi Hx.
  destruct (pixel_bytes _ _ _ _ Hvalid i x Hi Hx) as (Hy & Hv0 & Hv1).
  exists (byte_at yuv (i * width + x)),
         (byte_at yuv (v_offset width height i x + 1)),
         (byte_at yuv (v_offset width height i x)),
         (pixel_word yuv width height i x).
  rewrite !byte_at_lookup by lia.
  repeat (split; [reflexivity|]).
  split; [now apply Hpix|].
  unfold pixel_word.
  destruct (argb_spec_word (byte_at yuv (i * width + x))
              (byte_at yuv (v_offset width height i x + 1))
              (byte_at yuv (v_offset width height i x))) as [-> Hrange].
  split; [apply wrap32_range|]. now apply to_unsigned_wrap32.
Qed.

Lemma per_pixel_arithmetic_witness :
  exists out,
    nativeYUV420toARGB8888 [81; 81; 81; 81; 240; 90] 2 2 [0; 0; 0; 0]
    = Returned out
    /\ forall i x, 0 <= i < 2 -> 0 <= x < 2 ->
       exists yb ub vb w,
         [81; 81; 81; 81; 240; 90] !! Z.to_nat (i * 2 + x) = Some yb
         /\ [81; 81; 81; 81; 240; 90] !! Z.to_nat (v_offset 2 2 i x)
            = Some vb
         /\ [81; 81; 81; 81; 240; 90] !! Z.to_nat (v_offset 2 2 i x + 1)
            = Some ub
         /\ out !! Z.to_nat (i * 2 + x) = Some w
         /\ int32 w
         /\ to_unsigned w = spec_word (ubyte yb) (ubyte ub) (ubyte vb).
Proof.
  apply (per_pixel_arithmetic [81; 81; 81; 81; 240; 90] 2 2 [0; 0; 0; 0]).
  unfold valid_frame. cbn. repeat split; lia.
Defined.

(** C2. On a valid frame, for every chroma block [(c, r)], the four output
    pixels at [(2c, 2r)], [(2c+1, 2r)], [(2c, 2r+1)], [(2c+1, 2r+1)] are
    computed from one [(U, V)] pair: the V byte at offset
    [width*height + r*width + 2c] and the U byte right after it. *)
Theorem chroma_sharing yuv width height rgbOut c r :
  valid_frame yuv width height rgbOut ->
  0 <= c < width / 2 -> 0 <= r < height / 2 ->
  exists out vb ub,
    nativeYUV420toARGB8888 yuv width height rgbOut = Returned out
    /\ yuv !! Z.to_nat (width * height + r * width + 2 * c) = Some vb
    /\ yuv !! Z.to_nat (width * height + r * width + 2 * c + 1) = Some ub
    /\ forall dx dy, 0 <= dx <= 1 -> 0 <= dy <= 1 ->
       exists yb,
         yuv !! Z.to_nat ((2 * r + dy) * width + (2 * c + dx)) = Some yb
         /\ out !! Z.to_nat ((2 * r + dy) * width + (2 * c + dx))
            = Some (argb (luma yb) (chroma ub) (chroma vb)).
Proof.
  intros Hvalid Hc Hr.
  destruct (convert_valid _ _ _ _ Hvalid) as (out & Hrun & _ & Hpix).
  pose proof (width_even _ _ _ _ Hvalid) as Hwe.
  pose proof (height_even _ _ _ _ Hvalid) as Hhe.
  assert (Hoff : forall dx dy, 0 <= dx <= 1 -> 0 <= dy <= 1 ->
            v_offset width height (2 * r + dy) (2 * c + dx)
            = width * height + r * width + 2 * c).
  { intros dx dy Hdx Hdy. unfold v_offset. rewrite !shiftr1_div.
    replace ((2 * r + dy) / 2) with r by (Z.div_mod_to_equations; lia).
    replace ((2 * c + dx) / 2) with c by (Z.div_mod_to_equations; lia).
    reflexivity. }
  destruct (pixel_bytes _ _ _ _ Hvalid (2 * r + 0) (2 * c + 0)
              ltac:(lia) ltac:(lia)) as (_ & Hv0 & Hv1).
  rewrite (Hoff 0 0) in Hv0, Hv1 by lia.
  exists out, (byte_at yuv (width * height + r * width + 2 * c)),
         (byte_at yuv (width * height + r * width + 2 * c + 1)).
  split; [assumption|].
  rewrite !byte_at_lookup by lia.
  split; [reflexivity|]. split; [reflexivity|].
  intros dx dy Hdx Hdy.
  destruct (pixel_bytes _ _ _ _ Hvalid (2 * r + dy) (2 * c + dx)
              ltac:(lia) ltac:(lia)) as (Hy & _).
  exists (byte_at yuv ((2 * r + dy) * width + (2 * c + dx))).
  rewrite byte_at_lookup by lia. split; [reflexivity|].
  rewrite Hpix by lia. unfold pixel_word.
  now rewrite (Hoff dx dy) by lia.
Qed.

Lemma chroma_sharing_witness :
  exists out vb ub,
    nativeYUV420toARGB8888 [16; 235; 235; 16; 240; 90] 2 2 [0; 0; 0; 0]
    = Returned out
    /\ [16; 235; 235; 16; 240; 90] !! Z.to_nat (2 * 2 + 0 * 2 + 2 * 0)
       = Some vb
    /\ [16; 235; 235; 16; 240; 90] !! Z.to_nat (2 * 2 + 0 * 2 + 2 * 0 + 1)
       = Some ub
    /\ forall dx dy, 0 <= dx <= 1 -> 0 <= dy <= 1 ->
       exists yb,
         [16; 235; 235; 16; 240; 90]
           !! Z.to_nat ((2 * 0 + dy) * 2 + (2 * 0 + dx)) = Some yb
         /\ out !! Z.to_nat ((2 * 0 + dy) * 2 + (2 * 0 + dx))
            = Some (argb (luma yb) (chroma ub) (chroma vb)).
Proof.
  apply (chroma_sharing [16; 235; 235; 16; 240; 90] 2 2 [0; 0; 0; 0] 0 0).
  - unfold valid_frame. cbn. repeat split; lia.
  - split; [lia | reflexivity].
  - split; [lia | reflexivity].
Defined.

(** C4. On a valid frame every word of the output has alpha byte [0xFF]:
    [(w >> 24) & 0xFF = 0xFF]. *)
Theorem alpha_constant yuv width height rgbOut :
  valid_frame yuv width height rgbOut ->
  exists out,
    nativeYUV420toARGB8888 yuv width height rgbOut = Returned out
    /\ forall w, w ∈ out -> Z.land (Z.shiftr w 24) 0xFF = 0xFF.
Proof.
  intros Hvalid.
  destruct (convert_valid_words _ _ _ _ Hvalid)
    as (out & Hrun & _ & _ & Hwords).
  exists out. split; [assumption|]. intros w Hw.
  apply list_elem_of_lookup in Hw. destruct Hw as [n Hn].
  destruct (Hwords n w Hn) as (i & x & _ & _ & _ & ->).
  rewrite <- alpha_eq. unfold pixel_word.
  exact (proj1 (argb_fields _ _ _)).
Qed.

Lemma alpha_constant_witness :
  exists out,
    nativeYUV420toARGB8888 [81; 81; 81; 81; 240; 90] 2 2 [7; 7; 7; 7]
    = Returned out
    /\ forall w, w ∈ out -> Z.land (Z.shiftr w 24) 0xFF = 0xFF.
Proof.
  apply (alpha_constant [81; 81; 81; 81; 240; 90] 2 2 [7; 7; 7; 7]).
  unfold valid_frame. cbn. repeat split; lia.
Defined.

(** C5. [clamp] saturates: it returns [x] when [0 <= x <= 255], [0] when
    [x < 0] and [255] when [x > 255]; the result is never a wrapped
    value. *)
Theorem clamp_saturates (x : Z) :
  (0 <= x <= 255 -> clamp x = x)
  /\ (x < 0 -> clamp x = 0)
  /\ (x > 255 -> clamp x = 255).
Proof.
  destruct (clamp_cases x) as [[? ?]|[[? ?]|[? ?]]];
    repeat split; intros; lia.
Qed.

Lemma clamp_saturates_witness :
  clamp 200 = 200 /\ clamp (-1) = 0 /\ clamp 256 = 255.
Proof.
  split; [|split].
  - apply (clamp_saturates 200). lia.
  - apply (clamp_saturates (-1)). lia.
  - apply (clamp_saturates 256). lia.
Defined.

(** C10. Locality: on valid frames of the same dimensions, the output
    word of the pixel at column [x] of row [i] is determined by the input
    bytes at [i*width + x], at
    [width*height + (i>>1)*width + 2*(x>>1)] and at the next offset. *)
Theorem pixel_locality yuv1 yuv2 width height rgb1 rgb2 i x :
  valid_frame yuv1 width height rgb1 ->
  valid_frame yuv2 width height rgb2 ->
  0 <= i < height -> 0 <= x < width ->
  let ky := i * width + x in
  let kv := width * height + Z.shiftr i 1 * width + 2 * Z.shiftr x 1 in
  yuv1 !! Z.to_nat ky = yuv2 !! Z.to_nat ky ->
  yuv1 !! Z.to_nat kv = yuv2 !! Z.to_nat kv ->
  yuv1 !! Z.to_nat (kv + 1) = yuv2 !! Z.to_nat (kv + 1) ->
  exists out1 out2 w,
    nativeYUV420toARGB8888 yuv1 width height rgb1 = Returned out1
    /\ nativeYUV420toARGB8888 yuv2 width height rgb2 = Returned out2
    /\ out1 !! Z.to_nat ky = Some w
    /\ out2 !! Z.to_nat ky = Some w.
Proof.
  intros Hv1 Hv2 Hi Hx ky kv Hy Hv Hu.
  destruct (convert_valid _ _ _ _ Hv1) as (out1 & Hrun1 & _ & Hpix1).
  destruct (convert_valid _ _ _ _ Hv2) as (out2 & Hrun2 & _ & Hpix2).
  exists out1, out2, (pixel_word yuv1 width height i x).
  split; [assumption|]. split; [assumption|].
  split; [now apply Hpix1|].
  subst ky. rewrite Hpix2 by assumption. f_equal.
  destruct (pixel_bytes _ _ _ _ Hv1 i x Hi Hx) as (Hby & Hbv0 & Hbv1).
  fold (v_offset width height i x) in kv. subst kv.
  rewrite !byte_at_lookup in Hy, Hv, Hu by lia.
  symmetry in Hy, Hv, Hu.
  apply lookup_byte_at in Hy, Hv, Hu; try lia.
  unfold pixel_word. now rewrite Hy, Hv, Hu.
Qed.

Lemma pixel_locality_witness :
  exists out1 out2 w,
    nativeYUV420toARGB8888 [81; 16; 16; 16; 240; 90] 2 2 [0; 0; 0; 0]
    = Returned out1
    /\ nativeYUV420toARGB8888 [81; 235; 200; 100; 240; 90] 2 2 [1; 2; 3; 4]
       = Returned out2
    /\ out1 !! Z.to_nat (0 * 2 + 0) = Some w
    /\ out2 !! Z.to_nat (0 * 2 + 0) = Some w.
Proof.
  apply (pixel_locality [81; 16; 16; 16; 240; 90]
           [81; 235; 200; 100; 240; 90] 2 2 [0; 0; 0; 0] [1; 2; 3; 4] 0 0).
  - unfold valid_frame. cbn. repeat split; lia.
  - unfold valid_frame. cbn. repeat split; lia.
  - lia.
  - lia.
  - reflexivity.
  - reflexivity.
  - reflexivity.
Defined.

(** ** Gray frames *)

Lemma ubyte_idem b : ubyte (ubyte b) = ubyte b.
Proof. apply ubyte_small, ubyte_range. Qed.

Lemma luma_ubyte yb : luma (ubyte yb) = luma yb.
Proof. now rewrite !luma_max, ubyte_idem. Qed.

Lemma chroma_neutral cb : ubyte cb = 128 -> chroma cb = 0.
Proof. intros Hc. rewrite chroma_sub. lia. Qed.

Lemma gray_channels y :
  0 <= y <= 255 ->
  let w := argb y 0 0 in
  red w = clamp (Z.shiftr (1192 * y) 10 + 2)
  /\ green w = clamp (Z.shiftr (1192 * y) 10 + 2)
  /\ blue w = clamp (Z.shiftr (1192 * y) 10 + 2).
Proof.
  intros Hy w. subst w.
  destruct (argb_fields y 0 0) as (_ & -> & -> & ->).
  rewrite r_pre_exact, g_pre_exact, b_pre_exact by lia.
  rewrite !channel_exact by lia.
  repeat split; do 3 f_equal; lia.
Qed.

Lemma gray_level_eq Y :
  gray_level Y = clamp (Z.shiftr (1192 * luma Y) 10 + 2).
Proof.
  unfold gray_level. rewrite (chroma_neutral 128) by reflexivity.
  pose proof (luma_range Y).
  apply (gray_channels (luma Y)). lia.
Qed.

Lemma gray_level_le Y1 Y2 :
  0 <= Y1 <= 255 -> 0 <= Y2 <= 255 -> Y1 <= Y2 ->
  gray_level Y1 <= gray_level Y2.
Proof.
  intros H1 H2 Hle. rewrite !gray_level_eq, !luma_max, !ubyte_small by lia.
  apply clamp_mono. rewrite !shiftr10_div.
  apply Z.add_le_mono_r, Z.div_le_mono; lia.
Qed.

(** Discharges a constraint on one sample of a concrete frame. *)
Ltac sample_ok H :=
  injection H as <-; vm_compute; split; intros;
  (lia || intuition discriminate).

(** C6. On a valid frame whose chroma is neutral ([U = V = 128])
    everywhere and whose luma samples lie in [16, 235], every output word
    has [R = G = B], and that common value is a non-decreasing function of
    the pixel's luma sample. *)
Theorem gray_axis yuv width height rgbOut :
  valid_frame yuv width height rgbOut ->
  gray_frame yuv width height ->
  exists out,
    nativeYUV420toARGB8888 yuv width height rgbOut = Returned out
    /\ (forall i x, 0 <= i < height -> 0 <= x < width ->
        exists yb w,
          yuv !! Z.to_nat (i * width + x) = Some yb
          /\ out !! Z.to_nat (i * width + x) = Some w
          /\ red w = green w /\ green w = blue w
          /\ blue w = gray_level (ubyte yb))
    /\ (forall Y1 Y2, 16 <= Y1 -> Y1 <= Y2 -> Y2 <= 235 ->
        gray_level Y1 <= gray_level Y2).
Proof.
  intros Hvalid Hgray.
  destruct (convert_valid _ _ _ _ Hvalid) as (out & Hrun & _ & Hpix).
  exists out. split; [assumption|]. split.
  - intros i x Hi Hx.
    destruct (pixel_bytes _ _ _ _ Hvalid i x Hi Hx) as (Hy & Hv0 & Hv1).
    pose proof (luma_row _ _ _ _ Hvalid i Hi) as [Hr0 Hr1].
    pose proof (chroma_row _ _ _ _ Hvalid i Hi) as [Hc0 Hc1].
    pose proof (v_offset_eq width height i x) as Hoff.
    assert (Hx2 : 0 <= 2 * (x / 2)) by (Z.div_mod_to_equations; lia).
    exists (byte_at yuv (i * width + x)), (pixel_word yuv width height i x).
    rewrite byte_at_lookup by lia. split; [reflexivity|].
    split; [now apply Hpix|].
    unfold pixel_word.
    destruct (Hgray _ _ (byte_at_lookup yuv (v_offset width height i x)
                           ltac:(lia))) as [_ HV].
    destruct (Hgray _ _ (byte_at_lookup yuv (v_offset width height i x + 1)
                           ltac:(lia))) as [_ HU].
    rewrite (chroma_neutral _ (HV ltac:(lia))).
    rewrite (chroma_neutral _ (HU ltac:(lia))).
    rewrite gray_level_eq, luma_ubyte.
    pose proof (luma_range (byte_at yuv (i * width + x))) as Hl.
    destruct (gray_channels (luma (byte_at yuv (i * width + x))) ltac:(lia))
      as (-> & -> & ->).
    auto.
  - intros Y1 Y2 H1 Hle H2. apply gray_level_le; lia.
Qed.

Lemma gray_axis_witness :
  exists out,
    nativeYUV420toARGB8888 [16; 126; 200; 235; 128; 128] 2 2 [0; 0; 0; 0]
    = Returned out
    /\ (forall i x, 0 <= i < 2 -> 0 <= x < 2 ->
        exists yb w,
          [16; 126; 200; 235; 128; 128] !! Z.to_nat (i * 2 + x) = Some yb
          /\ out !! Z.to_nat (i * 2 + x) = Some w
          /\ red w = green w /\ green w = blue w
          /\ blue w = gray_level (ubyte yb))
    /\ (forall Y1 Y2, 16 <= Y1 -> Y1 <= Y2 -> Y2 <= 235 ->
        gray_level Y1 <= gray_level Y2).
Proof.
  apply (gray_axis [16; 126; 200; 235; 128; 128] 2 2 [0; 0; 0; 0]).
  - unfold valid_frame. cbn. repeat split; lia.
  - intros n b Hb.
    do 6 (destruct n as [|n]; [sample_ok Hb|]). discriminate Hb.
Defined.

(** ** Black frames *)

Lemma black_pixel yb ub vb :
  ubyte yb <= 16 -> ubyte ub = 128 -> ubyte vb = 128 ->
  argb (luma yb) (chroma ub) (chroma vb) = wrap32 0xFF020202.
Proof.
  intros Hy Hu Hv. pose proof (ubyte_range yb).
  rewrite (chroma_neutral _ Hu), (chroma_neutral _ Hv), luma_max.
  replace (Z.max 0 (ubyte yb - 16)) with 0 by lia.
  reflexivity.
Qed.

(** C3, as the code has it.  The 2x2 frame [[16,16,16,16, 128,128]] is
    converted to four words [0xFF020202], not [0xFF000000]: each colour
    channel is 2, the bias added after the shift.  *)
Lemma uniform_black_is_not_zero :
  nativeYUV420toARGB8888 [16; 16; 16; 16; 128; 128] 2 2 [0; 0; 0; 0]
  = Returned [wrap32 0xFF020202; wrap32 0xFF020202;
              wrap32 0xFF020202; wrap32 0xFF020202]
  /\ to_unsigned (wrap32 0xFF020202) = 0xFF020202
  /\ 0xFF020202 <> 0xFF000000
  /\ red (wrap32 0xFF020202) = 2
  /\ green (wrap32 0xFF020202) = 2
  /\ blue (wrap32 0xFF020202) = 2
  /\ ~ (Z.abs (red (wrap32 0xFF020202) - red (wrap32 0xFF000000)) <= 1).
Proof.
  vm_compute. repeat split; try discriminate.
  intros H. apply H. reflexivity.
Qed.

(** C3, amended.  A valid frame with every luma sample 16 and neutral
    chroma is converted to words that all equal [0xFF020202] (alpha
    [0xFF], every colour channel 2); in particular the 2x2 frame
    [[16,16,16,16, 128,128]]. *)
Theorem uniform_black yuv width height rgbOut :
  valid_frame yuv width height rgbOut ->
  black_frame yuv width height ->
  exists out,
    nativeYUV420toARGB8888 yuv width height rgbOut = Returned out
    /\ Z.of_nat (length out) = width * height
    /\ forall w, w ∈ out ->
         to_unsigned w = 0xFF020202
         /\ alpha w = 0xFF /\ red w = 2 /\ green w = 2 /\ blue w = 2.
Proof.
  intros Hvalid Hblack.
  destruct (convert_valid_words _ _ _ _ Hvalid)
    as (out & Hrun & Hlen & _ & Hwords).
  exists out. split; [assumption|]. split; [assumption|]. intros w Hw.
  apply list_elem_of_lookup in Hw. destruct Hw as [n Hn].
  destruct (Hwords n w Hn) as (i & x & Hi & Hx & _ & ->).
  destruct (pixel_bytes _ _ _ _ Hvalid i x Hi Hx) as (Hy & Hv0 & Hv1).
  pose proof (luma_row _ _ _ _ Hvalid i Hi) as [Hr0 Hr1].
  pose proof (chroma_row _ _ _ _ Hvalid i Hi) as [Hc0 Hc1].
  pose proof (v_offset_eq width height i x) as Hoff.
  assert (Hx2 : 0 <= 2 * (x / 2)) by (Z.div_mod_to_equations; lia).
  destruct (Hblack _ _ (byte_at_lookup yuv (i * width + x) ltac:(lia)))
    as [HY _].
  destruct (Hblack _ _ (byte_at_lookup yuv (v_offset width height i x)
                          ltac:(lia))) as [_ HV].
  destruct (Hblack _ _ (byte_at_lookup yuv (v_offset width height i x + 1)
                          ltac:(lia))) as [_ HU].
  unfold pixel_word.
  rewrite black_pixel by lia.
  vm_compute. auto.
Qed.

Lemma uniform_black_witness :
  exists out,
    nativeYUV420toARGB8888 [16; 16; 16; 16; 128; 128] 2 2 [0; 0; 0; 0]
    = Returned out
    /\ Z.of_nat (length out) = 2 * 2
    /\ forall w, w ∈ out ->
         to_unsigned w = 0xFF020202
         /\ alpha w = 0xFF /\ red w = 2 /\ green w = 2 /\ blue w = 2.
Proof.
  apply (uniform_black [16; 16; 16; 16; 128; 128] 2 2 [0; 0; 0; 0]).
  - unfold valid_frame. cbn. repeat split; lia.
  - intros n b Hb.
    do 6 (destruct n as [|n]; [sample_ok Hb|]). discriminate Hb.
Defined.

(** C7, as the code has it.  The 2x2 frame [[0,0,0,0, 128,128]] is
    converted to four words [0xFF020202], not [0xFF000000]. *)
Lemma below_pedestal_is_not_zero :
  nativeYUV420toARGB8888 [0; 0; 0; 0; 128; 128] 2 2 [0; 0; 0; 0]
  = Returned [wrap32 0xFF020202; wrap32 0xFF020202;
              wrap32 0xFF020202; wrap32 0xFF020202]
  /\ to_unsigned (wrap32 0xFF020202) = 0xFF020202
  /\ 0xFF020202 <> 0xFF000000.
Proof. vm_compute. repeat split; discriminate. Qed.

(** C7, amended.  A luma sample below the pedestal is clamped to 0
    before the matrix, so the 2x2 frame [[0,0,0,0, 128,128]] is converted
    to the same output as the frame with [Y = 16], which is four words
    [0xFF020202]. *)
Theorem below_pedestal rgbOut :
  length rgbOut = 4%nat ->
  (forall yb, ubyte yb <= 16 -> luma yb = 0)
  /\ nativeYUV420toARGB8888 [0; 0; 0; 0; 128; 128] 2 2 rgbOut
     = nativeYUV420toARGB8888 [16; 16; 16; 16; 128; 128] 2 2 rgbOut
  /\ nativeYUV420toARGB8888 [0; 0; 0; 0; 128; 128] 2 2 rgbOut
     = Returned [wrap32 0xFF020202; wrap32 0xFF020202;
                 wrap32 0xFF020202; wrap32 0xFF020202]
  /\ to_unsigned (wrap32 0xFF020202) = 0xFF020202.
Proof.
  intros Hlen. split.
  - intros yb Hy. pose proof (ubyte_range yb). rewrite luma_max. lia.
  - destruct rgbOut as [|a [|b [|c [|d [|e l]]]]]; try discriminate Hlen.
    vm_compute. auto.
Qed.

Lemma below_pedestal_witness :
  (forall yb, ubyte yb <= 16 -> luma yb = 0)
  /\ nativeYUV420toARGB8888 [0; 0; 0; 0; 128; 128] 2 2 [9; 9; 9; 9]
     = nativeYUV420toARGB8888 [16; 16; 16; 16; 128; 128] 2 2 [9; 9; 9; 9]
  /\ nativeYUV420toARGB8888 [0; 0; 0; 0; 128; 128] 2 2 [9; 9; 9; 9]
     = Returned [wrap32 0xFF020202; wrap32 0xFF020202;
                 wrap32 0xFF020202; wrap32 0xFF020202]
  /\ to_unsigned (wrap32 0xFF020202) = 0xFF020202.
Proof. apply (below_pedestal [9; 9; 9; 9]). reflexivity. Defined.

(** ** No overflow *)

(** One checked operation whose exact result is in range. *)
Ltac checked_step :=
  rewrite ret_int32 by (unfold int32; lia); cbn [mbind option_bind].

Lemma checked_luma yb : Checked.luma yb = Some (luma yb).
Proof.
  unfold Checked.luma, luma. pose proof (ubyte_range yb).
  rewrite ret_int32, wrap32_id by (unfold int32; lia). reflexivity.
Qed.

Lemma checked_chroma cb : Checked.chroma cb = Some (chroma cb).
Proof.
  unfold Checked.chroma, chroma. pose proof (ubyte_range cb).
  rewrite ret_int32, wrap32_id by (unfold int32; lia). reflexivity.
Qed.

Lemma checked_channel c :
  - 2 ^ 30 <= c <= 2 ^ 30 -> Checked.channel c = Some (channel c).
Proof.
  intros Hc. unfold Checked.channel, channel.
  assert (Hs : - 2 ^ 30 <= Z.shiftr c 10 <= 2 ^ 30).
  { rewrite shiftr10_div. Z.div_mod_to_equations. lia. }
  rewrite (ret_int32 (Z.shiftr c 10)) by (unfold int32; lia). cbn.
  rewrite (ret_int32 (Z.shiftr c 10 + 2)) by (unfold int32; lia). cbn.
  now rewrite wrap32_id by (unfold int32; lia).
Qed.

Lemma checked_argb y u v :
  0 <= y <= 255 -> -128 <= u <= 128 -> -128 <= v <= 128 ->
  Checked.argb y u v = Some (argb y u v).
Proof.
  intros Hy Hu Hv. unfold Checked.argb.
  do 9 checked_step.
  rewrite !checked_channel by lia. cbn [mbind option_bind].
  rewrite <- (r_pre_exact y v), <- (g_pre_exact y u v), <- (b_pre_exact y u)
    by lia.
  pose proof (channel_range (r_pre y v)) as Hr.
  pose proof (channel_range (g_pre y u v)) as Hg.
  assert (H16 : Z.shiftl (channel (r_pre y v)) 16
                = channel (r_pre y v) * 65536)
    by now rewrite Z.shiftl_mul_pow2 by lia.
  assert (H8 : Z.shiftl (channel (g_pre y u v)) 8
               = channel (g_pre y u v) * 256)
    by now rewrite Z.shiftl_mul_pow2 by lia.
  do 2 checked_step.
  unfold argb, pack.
  now rewrite !(wrap32_id (Z.shiftl _ _)) by (unfold int32; lia).
Qed.

(** C9. For all byte samples, no signed operation of the per-pixel
    computation leaves the range of a 32-bit [int]: the checked reading
    succeeds and yields the word the converter stores.  The accumulator
    satisfies [|y'| <= 255], [|u'|, |v'| <= 128], the three channel sums
    equal their exact values, and the packed word, an [unsigned int],
    fits 32 bits. *)
Theorem no_overflow (yb ub vb : Z) :
  Checked.pixel yb ub vb = Some (argb (luma yb) (chroma ub) (chroma vb))
  /\ Z.abs (luma yb) <= 255
  /\ Z.abs (chroma ub) <= 128
  /\ Z.abs (chroma vb) <= 128
  /\ r_pre (luma yb) (chroma vb) = 1192 * luma yb + 1634 * chroma vb
  /\ g_pre (luma yb) (chroma ub) (chroma vb)
     = 1192 * luma yb - 833 * chroma vb - 400 * chroma ub
  /\ b_pre (luma yb) (chroma ub) = 1192 * luma yb + 2066 * chroma ub
  /\ 0 <= pack (channel (r_pre (luma yb) (chroma vb)))
               (channel (g_pre (luma yb) (chroma ub) (chroma vb)))
               (channel (b_pre (luma yb) (chroma ub))) < 2 ^ 32.
Proof.
  pose proof (luma_range yb) as Hy.
  pose proof (chroma_range ub) as Hu.
  pose proof (chroma_range vb) as Hv.
  split.
  { unfold Checked.pixel.
    rewrite checked_luma. cbn [mbind option_bind].
    rewrite !checked_chroma. cbn [mbind option_bind].
    apply checked_argb; lia. }
  repeat (split; [lia|]).
  split; [apply r_pre_exact; lia|].
  split; [apply g_pre_exact; lia|].
  split; [apply b_pre_exact; lia|].
  pose proof (pack_range _ _ _
                (channel_range (r_pre (luma yb) (chroma vb)))
                (channel_range (g_pre (luma yb) (chroma ub) (chroma vb)))
                (channel_range (b_pre (luma yb) (chroma ub)))).
  lia.
Qed.

(** ** Loops and properties of their states *)

Lemma for_loop_keeps {A : Type} (P : A -> Prop) (body : Z -> A -> outcome A) :
  (forall x s, P s ->
     match body x s with Ok s' => P s' | Fault s' => P s' end) ->
  forall n x s, P s ->
    match for_loop body x n s with Ok s' => P s' | Fault s' => P s' end.
Proof.
  intros Hbody. induction n as [|n IH]; intros x s Hs; cbn [for_loop].
  - assumption.
  - specialize (Hbody x s Hs).
    destruct (body x s) as [s1|s1]; [now apply IH | assumption].
Qed.

Lemma empty_rows yuv width height n : forall i s,
  width <= 0 ->
  exists s', for_loop (row_step yuv width height) i n s = Ok s'
             /\ rgb s' = rgb s.
Proof.
  induction n as [|n IH]; intros i s Hw; cbn [for_loop].
  - now exists s.
  - unfold row_step at 1.
    replace (Z.to_nat width) with 0%nat by lia. cbn [for_loop].
    destruct (IH (i + 1)
                (mkState (yp s) (row_uvp width height i) 0 0 (rgb s)) Hw)
      as (s' & -> & Hrgb).
    now exists s'.
Qed.

(** * Further properties of the converter *)

(** ** Frames of any positive dimensions *)

Lemma store_None a k w : Z.of_nat (length a) <= k -> store a k w = None.
Proof.
  intros Hk. unfold store.
  destruct (Z.ltb_spec k (Z.of_nat (length a))); [lia|].
  now rewrite andb_false_r.
Qed.

Lemma row_fits w h i :
  0 < w -> 0 <= i < h -> 0 <= i * w /\ i * w + w <= w * h.
Proof.
  intros Hw Hi. split; [nia|].
  replace (i * w + w) with (w * (i + 1)) by ring.
  apply Z.mul_le_mono_nonneg_l; lia.
Qed.

Lemma chroma_fits w h i x :
  0 < w -> 0 <= i < h -> 0 <= x < w ->
  0 <= i / 2 * w /\ 0 <= 2 * (x / 2)
  /\ i / 2 * w + 2 * (x / 2) + 2 <= (h - 1) / 2 * w + 2 * ((w + 1) / 2).
Proof.
  intros Hw Hi Hx.
  assert (Hq : 0 <= i / 2 <= (h - 1) / 2).
  { split; [apply Z.div_pos; lia | apply Z.div_le_mono; lia]. }
  assert (Hm : i / 2 * w <= (h - 1) / 2 * w)
    by (apply Z.mul_le_mono_nonneg_r; lia).
  assert (Hx2 : 0 <= 2 * (x / 2) /\ 2 * (x / 2) + 2 <= 2 * ((w + 1) / 2))
    by (Z.div_mod_to_equations; lia).
  split; [nia|]. lia.
Qed.

Section AnyFrame.

Variables (yuv : list Z) (width height : Z) (rgbOut : list Z).
Hypothesis Hin : enough_input yuv width height.

Lemma pixel_step_any i x s :
  0 <= i < height -> 0 <= x < width ->
  pixel_inv yuv width height rgbOut i x s ->
  match pixel_step yuv x s with
  | Ok s' => pixel_inv yuv width height rgbOut i (x + 1) s'
  | Fault s' => filled yuv width height rgbOut s'
  end.
Proof.
  intros Hi Hx (Hyp & Huvp & Huv & Hlen & Hdone & Htodo).
  destruct Hin as (Hw & Hh & Hyl & Hys).
  pose proof (row_fits width height i Hw Hi) as [Hr0 Hr1].
  pose proof (chroma_fits width height i x Hw Hi Hx) as (Hc0 & Hx0 & Hc1).
  unfold pixel_step.
  rewrite (load_Some yuv (yp s)) by lia.
  fold (byte_at yuv (yp s)).
  assert (Hfetch : fetch_chroma yuv x s
            = Some (width * height + i / 2 * width + 2 * ((x + 2) / 2),
                    chroma (byte_at yuv (v_offset width height i x + 1)),
                    chroma (byte_at yuv (v_offset width height i x)))).
  { unfold fetch_chroma. rewrite land1_mod, v_offset_eq.
    destruct (Z.eqb_spec (x mod 2) 0) as [Hev|Hodd].
    - assert (Hx1 : (x + 1) / 2 = x / 2) by (Z.div_mod_to_equations; lia).
      assert (Hx3 : (x + 2) / 2 = x / 2 + 1)
        by (Z.div_mod_to_equations; lia).
      rewrite Huvp, Hx1, Hx3.
      set (a := width * height + i / 2 * width + 2 * (x / 2)).
      assert (Ha : 0 <= a /\ a + 2 <= Z.of_nat (length yuv))
        by (subst a; lia).
      rewrite (wrap32_id (a + 1)) by (unfold int32; lia).
      rewrite (wrap32_id (a + 1 + 1)) by (unfold int32; lia).
      rewrite (load_Some yuv a), (load_Some yuv (a + 1)) by lia.
      cbn. unfold byte_at. do 3 f_equal. subst a. lia.
    - assert (Hod : Z.odd x = true).
      { apply odd_mod2. Z.div_mod_to_equations; lia. }
      destruct (Huv Hod) as [-> ->]. rewrite Huvp, v_offset_eq.
      do 3 f_equal. Z.div_mod_to_equations; lia. }
  rewrite Hfetch.
  destruct (Z.lt_ge_cases (yp s) (Z.of_nat (length (rgb s)))) as [Hlt|Hge].
  - rewrite store_Some by lia.
    unfold pixel_inv; cbn [yp uvp u v rgb].
    rewrite (wrap32_id (yp s + 1)) by (unfold int32; lia).
    split; [lia|]. split; [do 3 f_equal; lia|].
    split; [|split; [|split]].
    + intros Hod. rewrite !v_offset_eq.
      replace ((x + 1) / 2) with (x / 2); [done|].
      apply odd_mod2 in Hod. Z.div_mod_to_equations; lia.
    + rewrite length_insert. lia.
    + intros k Hk.
      destruct (Z.eq_dec k (yp s)) as [->|Hne].
      * rewrite list_lookup_insert_eq by lia.
        f_equal. rewrite Hyp. unfold word_at.
        rewrite div_row, mod_row by lia.
        unfold pixel_word. now rewrite <- Hyp.
      * rewrite list_lookup_insert_ne by lia. apply Hdone. lia.
    + intros k Hk. rewrite list_lookup_insert_ne by lia. apply Htodo. lia.
  - rewrite store_None by lia.
    unfold filled. split; [assumption|]. split; [lia|].
    intros k Hk. apply Hdone. lia.
Qed.

Lemma row_loop_any i n : forall x s,
  0 <= i < height -> 0 <= x -> x + Z.of_nat n = width ->
  pixel_inv yuv width height rgbOut i x s ->
  match for_loop (pixel_step yuv) x n s with
  | Ok s' => pixel_inv yuv width height rgbOut i width s'
  | Fault s' => filled yuv width height rgbOut s'
  end.
Proof.
  induction n as [|n IH]; intros x s Hi Hx Hn Hinv; cbn [for_loop].
  - assert (Hxw : x = width) by lia. now subst x.
  - pose proof (pixel_step_any i x s Hi ltac:(lia) Hinv) as Hstep.
    destruct (pixel_step yuv x s) as [s1|s1]; [|assumption].
    apply IH; [lia | lia | lia | assumption].
Qed.

Lemma row_step_any i s :
  0 <= i < height -> row_inv yuv width height rgbOut i s ->
  match row_step yuv width height i s with
  | Ok s' => row_inv yuv width height rgbOut (i + 1) s'
  | Fault s' => filled yuv width height rgbOut s'
  end.
Proof.
  intros Hi (Hyp & Hlen & Hdone & Htodo).
  destruct Hin as (Hw & Hh & Hyl & Hys).
  pose proof (row_fits width height i Hw Hi) as [Hr0 Hr1].
  pose proof (chroma_fits width height i 0 Hw Hi ltac:(lia))
    as (Hc0 & _ & Hc1).
  change (2 * (0 / 2)) with 0 in Hc1.
  assert (Hstart : pixel_inv yuv width height rgbOut i 0
            (mkState (yp s) (row_uvp width height i) 0 0 (rgb s))).
  { unfold pixel_inv; cbn [yp uvp u v rgb].
    split; [lia|]. split; [|split; [discriminate|done]].
    unfold row_uvp, frameSize. rewrite shiftr1_div.
    rewrite (wrap32_id (width * height)) by (unfold int32; lia).
    rewrite (wrap32_id (i / 2 * width)) by (unfold int32; lia).
    change ((0 + 1) / 2) with 0.
    rewrite wrap32_id by (unfold int32; lia). lia. }
  unfold row_step.
  pose proof (row_loop_any i (Z.to_nat width) 0 _
                Hi ltac:(lia) ltac:(lia) Hstart) as Hrun.
  destruct (for_loop (pixel_step yuv) 0 (Z.to_nat width)
              (mkState (yp s) (row_uvp width height i) 0 0 (rgb s)))
    as [s'|s']; [|exact Hrun].
  destruct Hrun as (Hyp' & _ & _ & Hlen' & Hdone' & Htodo').
  unfold row_inv. split; [lia|done].
Qed.

Lemma frame_loop_any n : forall i s,
  0 <= i -> i + Z.of_nat n = height ->
  row_inv yuv width height rgbOut i s ->
  match for_loop (row_step yuv width height) i n s with
  | Ok s' => row_inv yuv width height rgbOut height s'
  | Fault s' => filled yuv width height rgbOut s'
  end.
Proof.
  induction n as [|n IH]; intros i s Hi Hn Hinv; cbn [for_loop].
  - assert (Hih : i = height) by lia. now subst i.
  - pose proof (row_step_any i s ltac:(lia) Hinv) as Hstep.
    destruct (row_step yuv width height i s) as [s1|s1]; [|assumption].
    apply IH; [lia | lia | assumption].
Qed.

Lemma run_any :
  match for_loop (row_step yuv width height) 0 (Z.to_nat height)
                 (mkState 0 0 0 0 rgbOut) with
  | Ok s' => row_inv yuv width height rgbOut height s'
  | Fault s' => filled yuv width height rgbOut s'
  end.
Proof.
  destruct Hin as (Hw & Hh & _).
  apply frame_loop_any; [lia | lia |].
  unfold row_inv; cbn [yp rgb].
  split; [lia|]. split; [reflexivity|]. split; [intros; lia|done].
Qed.

End AnyFrame.

(** Closed arithmetic side conditions of concrete frames. *)
Ltac frame_arith :=
  first [ lia | vm_compute; first [ reflexivity | discriminate ] ].

(** ** Frames that break the contract *)

(** C8, as the code has it.  Nothing is checked and no failure is
    surfaced.  A 2x2 frame whose input is one byte too long is converted
    and its four output words are written; so is a 3x3 frame, whose
    dimensions are odd, given the 16 input bytes its loop reads. *)
Lemma precondition_not_checked :
  length [16; 16; 16; 16; 128; 128; 77] <> Z.to_nat (2 * 2 * 3 / 2)
  /\ nativeYUV420toARGB8888 [16; 16; 16; 16; 128; 128; 77] 2 2 [0; 0; 0; 0]
     = Returned [wrap32 0xFF020202; wrap32 0xFF020202;
                 wrap32 0xFF020202; wrap32 0xFF020202]
  /\ Z.even 3 = false
  /\ nativeYUV420toARGB8888
       [16; 16; 16; 16; 16; 16; 16; 16; 16;
        128; 128; 128; 128; 128; 128; 128] 3 3
       [0; 0; 0; 0; 0; 0; 0; 0; 0]
     = Returned [wrap32 0xFF020202; wrap32 0xFF020202; wrap32 0xFF020202;
                 wrap32 0xFF020202; wrap32 0xFF020202; wrap32 0xFF020202;
                 wrap32 0xFF020202; wrap32 0xFF020202; wrap32 0xFF020202].
Proof. vm_compute. repeat split; discriminate. Qed.

(** C8, amended.  The converter checks no precondition and surfaces no
    failure.  With a non-positive width or height it visits no pixel and
    returns with the output untouched.  With positive dimensions, even or
    odd, and arrays at least as long as what the loop accesses, longer
    ones included, it returns with every one of the [width*height] words
    written and the words after them untouched. *)
Theorem no_validation yuv width height rgbOut :
  (width <= 0 \/ height <= 0 ->
   nativeYUV420toARGB8888 yuv width height rgbOut = Returned rgbOut)
  /\ (enough_input yuv width height ->
      width * height <= Z.of_nat (length rgbOut) ->
      exists out,
        nativeYUV420toARGB8888 yuv width height rgbOut = Returned out
        /\ length out = length rgbOut
        /\ (forall i x, 0 <= i < height -> 0 <= x < width ->
            out !! Z.to_nat (i * width + x)
            = Some (pixel_word yuv width height i x))
        /\ (forall n : nat, width * height <= Z.of_nat n ->
            out !! n = rgbOut !! n)).
Proof.
  split.
  - intros Hdim. unfold nativeYUV420toARGB8888.
    destruct (Z.le_gt_cases height 0) as [Hh|Hh].
    + now replace (Z.to_nat height) with 0%nat by lia.
    + destruct (empty_rows yuv width height (Z.to_nat height) 0
                  (mkState 0 0 0 0 rgbOut) ltac:(lia)) as (s' & -> & Hrgb).
      now rewrite Hrgb.
  - intros Hin Hout.
    pose proof (run_any yuv width height rgbOut Hin) as Hrun.
    destruct Hin as (Hw & Hh & Hyl & Hys).
    unfold nativeYUV420toARGB8888.
    destruct (for_loop (row_step yuv width height) 0 (Z.to_nat height)
                (mkState 0 0 0 0 rgbOut)) as [s|s].
    + destruct Hrun as (Hyp & Hlen & Hdone & Htodo).
      exists (rgb s). split; [reflexivity|]. split; [assumption|]. split.
      * intros i x Hi Hx.
        pose proof (row_fits width height i Hw Hi) as [Hr0 Hr1].
        rewrite Hdone by lia. unfold word_at.
        now rewrite div_row, mod_row by lia.
      * intros n Hn. specialize (Htodo (Z.of_nat n) ltac:(lia)).
        now rewrite Nat2Z.id in Htodo.
    + destruct Hrun as (_ & Hshort & _). lia.
Qed.

Lemma no_validation_witness :
  nativeYUV420toARGB8888 [1; 2; 3] 0 2 [5; 5] = Returned [5; 5]
  /\ exists out,
       nativeYUV420toARGB8888 [16; 16; 16; 16; 128; 128; 77] 2 2
         [0; 0; 0; 0] = Returned out
       /\ length out = length [0; 0; 0; 0]
       /\ (forall i x, 0 <= i < 2 -> 0 <= x < 2 ->
           out !! Z.to_nat (i * 2 + x)
           = Some (pixel_word [16; 16; 16; 16; 128; 128; 77] 2 2 i x))
       /\ (forall n : nat, 2 * 2 <= Z.of_nat n ->
           out !! n = [0; 0; 0; 0] !! n).
Proof.
  split.
  - apply (no_validation [1; 2; 3] 0 2 [5; 5]). left. lia.
  - apply (no_validation [16; 16; 16; 16; 128; 128; 77] 2 2 [0; 0; 0; 0]).
    + unfold enough_input. cbn [length]. repeat split; frame_arith.
    + cbn [length]. lia.
Defined.

Lemma pixel_step_keeps_opaque yuv rgbOut x s :
  opaque_or_kept rgbOut s ->
  ends_with (opaque_or_kept rgbOut) (pixel_step yuv x s).
Proof.
  intros (Hlen & Hwords). unfold pixel_step.
  destruct (load yuv (yp s)) as [yb|]; [|cbn; done].
  destruct (fetch_chroma yuv x s) as [[[uvp' u'] v']|]; [|cbn; done].
  unfold store.
  destruct (Z.leb_spec 0 (yp s)); [|cbn; done].
  destruct (Z.ltb_spec (yp s) (Z.of_nat (length (rgb s)))); [|cbn; done].
  cbn. unfold opaque_or_kept; cbn [rgb].
  split; [now rewrite length_insert|].
  intros n w Hn.
  destruct (Nat.eq_dec n (Z.to_nat (yp s))) as [->|Hne].
  - rewrite list_lookup_insert_eq in Hn by lia.
    injection Hn as <-. right.
    split; [exact (proj1 (argb_fields _ _ _))|].
    rewrite argb_sum.
    pose proof (channel_range (r_pre (luma yb) v')).
    pose proof (channel_range (g_pre (luma yb) u' v')).
    pose proof (channel_range (b_pre (luma yb) u')).
    lia.
  - rewrite list_lookup_insert_ne in Hn by lia. now apply Hwords.
Qed.

(** X1. Whatever the dimensions and the arrays, and however the run ends,
    the output array keeps its length, and each of its words is either
    the word the caller left there or an opaque pixel: alpha [0xFF], a
    negative [jint] not below [-2^24]. *)
Theorem output_opaque_or_kept yuv width height rgbOut :
  let out := final_buffer (nativeYUV420toARGB8888 yuv width height rgbOut) in
  length out = length rgbOut
  /\ forall (n : nat) (w : Z), out !! n = Some w ->
       rgbOut !! n = Some w
       \/ (Z.land (Z.shiftr w 24) 0xFF = 0xFF /\ - 2 ^ 24 <= w < 0).
Proof.
  assert (Hend : ends_with (opaque_or_kept rgbOut)
            (for_loop (row_step yuv width height) 0 (Z.to_nat height)
                      (mkState 0 0 0 0 rgbOut))).
  { apply (for_loop_keeps (opaque_or_kept rgbOut)
             (row_step yuv width height)).
    - intros i s Hs. unfold row_step.
      apply (for_loop_keeps (opaque_or_kept rgbOut) (pixel_step yuv)).
      + intros x s1. apply pixel_step_keeps_opaque.
      + exact Hs.
    - split; [reflexivity|]. intros n w Hn. now left. }
  unfold nativeYUV420toARGB8888.
  destruct (for_loop (row_step yuv width height) 0 (Z.to_nat height)
              (mkState 0 0 0 0 rgbOut)) as [s|s];
    cbn [final_buffer]; destruct Hend as (Hlen & Hwords);
    (split; [exact Hlen|]); intros n w Hn;
    (destruct (Hwords n w Hn) as [Hk|[Ha Hr]]; [now left|right]);
    rewrite <- alpha_eq; auto.
Qed.

(** X2. For any positive dimensions, odd ones included, when the input
    covers every byte the loop reads and the output has at least
    [width*height] words, the run returns; the pixel at column [x] of row
    [i] receives the word computed from its luma byte and from the V and
    U bytes at [width*height + (i>>1)*width + 2*(x>>1)] and the offset
    after it; the words past [width*height] are left as they were. *)
Theorem sufficient_buffers yuv width height rgbOut :
  enough_input yuv width height ->
  width * height <= Z.of_nat (length rgbOut) ->
  exists out,
    nativeYUV420toARGB8888 yuv width height rgbOut = Returned out
    /\ length out = length rgbOut
    /\ (forall i x, 0 <= i < height -> 0 <= x < width ->
        exists yb ub vb,
          yuv !! Z.to_nat (i * width + x) = Some yb
          /\ yuv !! Z.to_nat (v_offset width height i x) = Some vb
          /\ yuv !! Z.to_nat (v_offset width height i x + 1) = Some ub
          /\ out !! Z.to_nat (i * width + x)
             = Some (argb (luma yb) (chroma ub) (chroma vb)))
    /\ (forall n : nat, width * height <= Z.of_nat n ->
        out !! n = rgbOut !! n).
Proof.
  intros Hin Hout.
  pose proof (run_any yuv width height rgbOut Hin) as Hrun.
  unfold nativeYUV420toARGB8888.
  destruct (for_loop (row_step yuv width height) 0 (Z.to_nat height)
              (mkState 0 0 0 0 rgbOut)) as [s|s].
  - destruct Hrun as (Hyp & Hlen & Hdone & Htodo).
    destruct Hin as (Hw & Hh & Hyl & Hys).
    exists (rgb s). split; [reflexivity|]. split; [assumption|]. split.
    + intros i x Hi Hx.
      pose proof (row_fits width height i Hw Hi) as [Hr0 Hr1].
      pose proof (chroma_fits width height i x Hw Hi Hx)
        as (Hc0 & Hx0 & Hc1).
      pose proof (v_offset_eq width height i x) as Hoff.
      exists (byte_at yuv (i * width + x)),
             (byte_at yuv (v_offset width height i x + 1)),
             (byte_at yuv (v_offset width height i x)).
      rewrite !(byte_at_lookup yuv) by lia.
      repeat (split; [reflexivity|]).
      rewrite Hdone by lia. unfold word_at.
      now rewrite div_row, mod_row by lia.
    + intros n Hn. specialize (Htodo (Z.of_nat n) ltac:(lia)).
      now rewrite Nat2Z.id in Htodo.
  - destruct Hrun as (_ & Hshort & _). lia.
Qed.

Lemma sufficient_buffers_witness :
  exists out,
    nativeYUV420toARGB8888
      [16; 81; 235; 16; 81; 235; 16; 81; 235;
       240; 90; 128; 128; 90; 240; 128] 3 3
      [1; 2; 3; 4; 5; 6; 7; 8; 9; 10; 11] = Returned out
    /\ length out = length [1; 2; 3; 4; 5; 6; 7; 8; 9; 10; 11]
    /\ (forall i x, 0 <= i < 3 -> 0 <= x < 3 ->
        exists yb ub vb,
          [16; 81; 235; 16; 81; 235; 16; 81; 235;
           240; 90; 128; 128; 90; 240; 128] !! Z.to_nat (i * 3 + x)
          = Some yb
          /\ [16; 81; 235; 16; 81; 235; 16; 81; 235;
              240; 90; 128; 128; 90; 240; 128]
               !! Z.to_nat (v_offset 3 3 i x) = Some vb
          /\ [16; 81; 235; 16; 81; 235; 16; 81; 235;
              240; 90; 128; 128; 90; 240; 128]
               !! Z.to_nat (v_offset 3 3 i x + 1) = Some ub
          /\ out !! Z.to_nat (i * 3 + x)
             = Some (argb (luma yb) (chroma ub) (chroma vb)))
    /\ (forall n : nat, 3 * 3 <= Z.of_nat n ->
        out !! n = [1; 2; 3; 4; 5; 6; 7; 8; 9; 10; 11] !! n).
Proof.
  apply (sufficient_buffers
           [16; 81; 235; 16; 81; 235; 16; 81; 235;
            240; 90; 128; 128; 90; 240; 128] 3 3
           [1; 2; 3; 4; 5; 6; 7; 8; 9; 10; 11]).
  - unfold enough_input. cbn [length]. repeat split; frame_arith.
  - cbn. lia.
Defined.

(** ** The output as a function of the input *)

(** X4. On a valid frame the returned buffer is determined by the input
    alone: its word [k] is the pixel word of row [k / width], column
    [k mod width], for [k] below [width*height], and nothing of the
    previous contents of the output remains. *)
Theorem valid_output_closed_form yuv width height rgbOut :
  valid_frame yuv width height rgbOut ->
  nativeYUV420toARGB8888 yuv width height rgbOut
  = Returned ((fun k : nat =>
                 pixel_word yuv width height
                   (Z.of_nat k / width) (Z.of_nat k mod width))
              <$> seq 0 (Z.to_nat (width * height))).
Proof.
  intros Hvalid.
  destruct (convert_valid_words _ _ _ _ Hvalid)
    as (out & Hrun & Hlen & _ & Hwords).
  rewrite Hrun. f_equal. apply list_eq. intros n.
  rewrite list_lookup_fmap.
  destruct (le_lt_dec (length out) n) as [Hge|Hlt].
  - rewrite lookup_ge_None_2 by assumption.
    rewrite lookup_ge_None_2; [reflexivity|]. rewrite length_seq. lia.
  - destruct (lookup_lt_is_Some_2 out n Hlt) as [w Hw]. rewrite Hw.
    rewrite lookup_seq_lt by lia. cbn.
    destruct (Hwords n w Hw) as (i & x & Hi & Hx & Hn & ->).
    pose proof (luma_row _ _ _ _ Hvalid i Hi) as [Hr0 Hr1].
    replace (Z.of_nat n) with (i * width + x) by lia.
    now rewrite div_row, mod_row by lia.
Qed.

Lemma valid_output_closed_form_witness :
  nativeYUV420toARGB8888 [16; 81; 235; 16; 240; 90] 2 2 [1; 2; 3; 4]
  = Returned ((fun k : nat =>
                 pixel_word [16; 81; 235; 16; 240; 90] 2 2
                   (Z.of_nat k / 2) (Z.of_nat k mod 2))
              <$> seq 0 (Z.to_nat (2 * 2))).
Proof.
  apply (valid_output_closed_form [16; 81; 235; 16; 240; 90] 2 2
           [1; 2; 3; 4]).
  unfold valid_frame. cbn [length]. repeat split; frame_arith.
Defined.

(** ** Signed and unsigned bytes *)

Lemma chroma_mask cb : chroma (ubyte cb) = chroma cb.
Proof. now rewrite !chroma_sub, ubyte_idem. Qed.

Lemma load_fmap (f : Z -> Z) a k : load (f <$> a) k = f <$> load a k.
Proof.
  unfold load. destruct (0 <=? k); [apply list_lookup_fmap|reflexivity].
Qed.

Lemma pixel_step_mask yuv x s :
  pixel_step (ubyte <$> yuv) x s = pixel_step yuv x s.
Proof.
  unfold pixel_step, fetch_chroma. rewrite !load_fmap.
  destruct (load yuv (yp s)) as [yb|]; [|reflexivity].
  cbn [fmap option_fmap option_map]. rewrite luma_ubyte.
  destruct (Z.land x 1 =? 0); [|reflexivity].
  destruct (load yuv (uvp s)) as [vb|]; [|reflexivity].
  destruct (load yuv (wrap32 (uvp s + 1))) as [ub|]; [|reflexivity].
  cbn [fmap option_fmap option_map mbind option_bind].
  now rewrite !chroma_mask.
Qed.

Lemma for_loop_ext {A : Type} (f g : Z -> A -> outcome A) :
  (forall x s, f x s = g x s) ->
  forall n x s, for_loop f x n s = for_loop g x n s.
Proof.
  intros Hfg. induction n as [|n IH]; intros x s; cbn [for_loop].
  - reflexivity.
  - rewrite Hfg. destruct (g x s); [apply IH | reflexivity].
Qed.

Lemma convert_mask yuv width height rgbOut :
  nativeYUV420toARGB8888 (ubyte <$> yuv) width height rgbOut
  = nativeYUV420toARGB8888 yuv width height rgbOut.
Proof.
  unfold nativeYUV420toARGB8888.
  rewrite (for_loop_ext (row_step (ubyte <$> yuv) width height)
             (row_step yuv width height)); [reflexivity|].
  intros i s. unfold row_step.
  apply for_loop_ext. intros x s1. apply pixel_step_mask.
Qed.

(** X5. Only the low eight bits of a stored byte matter: two inputs
    whose bytes agree after [0xff & _], such as the signed [jbyte] values
    and the unsigned samples they stand for, give the same run, whatever
    the dimensions and the output array. *)
Theorem byte_sign_irrelevant yuv1 yuv2 width height rgbOut :
  ubyte <$> yuv1 = ubyte <$> yuv2 ->
  nativeYUV420toARGB8888 yuv1 width height rgbOut
  = nativeYUV420toARGB8888 yuv2 width height rgbOut.
Proof.
  intros Hmask.
  rewrite <- (convert_mask yuv1), <- (convert_mask yuv2).
  now rewrite Hmask.
Qed.

Lemma byte_sign_irrelevant_witness :
  nativeYUV420toARGB8888 [-112; 16; -21; 127; -16; 90] 2 2 [0; 0; 0; 0]
  = nativeYUV420toARGB8888 [144; 16; 235; 127; 240; 90] 2 2 [0; 0; 0; 0].
Proof.
  apply (byte_sign_irrelevant [-112; 16; -21; 127; -16; 90]
           [144; 16; 235; 127; 240; 90] 2 2 [0; 0; 0; 0]).
  reflexivity.
Defined.

(** ** [clamp] and the packed word *)

(** X6. [clamp] is the projection onto [0, 255]: it equals
    [max 0 (min 255 x)], is monotone, and clamping twice changes
    nothing. *)
Theorem clamp_projection (x1 x2 : Z) :
  clamp x1 = Z.max 0 (Z.min 255 x1)
  /\ clamp (clamp x1) = clamp x1
  /\ (x1 <= x2 -> clamp x1 <= clamp x2).
Proof.
  split; [|split].
  - destruct (clamp_cases x1) as [[? ?]|[[? ?]|[? ?]]]; lia.
  - pose proof (clamp_range x1) as Hr.
    destruct (clamp_cases (clamp x1)) as [[? ?]|[[? ?]|[? ?]]]; lia.
  - apply clamp_mono.
Qed.

Lemma clamp_projection_witness :
  clamp (-7) = Z.max 0 (Z.min 255 (-7))
  /\ clamp (clamp (-7)) = clamp (-7)
  /\ clamp (-7) <= clamp 300.
Proof.
  destruct (clamp_projection (-7) 300) as (H1 & H2 & H3).
  split; [exact H1|]. split; [exact H2|]. apply H3. lia.
Defined.

Lemma red_eq w : red w = Z.land (Z.shiftr w 16) 0xFF.
Proof. reflexivity. Qed.

Lemma green_eq w : green w = Z.land (Z.shiftr w 8) 0xFF.
Proof. reflexivity. Qed.

Lemma blue_eq w : blue w = Z.land w 0xFF.
Proof. reflexivity. Qed.

(** X7. For any accumulator, in range or not, the stored word is a
    negative [jint] whose four bytes are [0xFF] and the three clamped
    channels: reading red, green and blue back from the word returns
    them, each in [0, 255], and the word is their packing. *)
Theorem word_layout (y u v : Z) :
  let w := argb y u v in
  - 2 ^ 24 <= w < 0
  /\ Z.land (Z.shiftr w 24) 0xFF = 0xFF
  /\ Z.land (Z.shiftr w 16) 0xFF = channel (r_pre y v)
  /\ Z.land (Z.shiftr w 8) 0xFF = channel (g_pre y u v)
  /\ Z.land w 0xFF = channel (b_pre y u)
  /\ 0 <= channel (r_pre y v) <= 255
  /\ 0 <= channel (g_pre y u v) <= 255
  /\ 0 <= channel (b_pre y u) <= 255
  /\ to_unsigned w
     = 0xFF000000 + channel (r_pre y v) * 65536
       + channel (g_pre y u v) * 256 + channel (b_pre y u).
Proof.
  intros w.
  pose proof (channel_range (r_pre y v)) as Hr.
  pose proof (channel_range (g_pre y u v)) as Hg.
  pose proof (channel_range (b_pre y u)) as Hb.
  assert (Hw : w = channel (r_pre y v) * 65536 + channel (g_pre y u v) * 256
                   + channel (b_pre y u) - 16777216)
    by apply argb_sum.
  rewrite <- alpha_eq, <- red_eq, <- green_eq, <- blue_eq.
  destruct (word_fields _ _ _ Hr Hg Hb) as (Ha & Hred & Hgreen & Hblue).
  rewrite <- Hw in Ha, Hred, Hgreen, Hblue.
  split; [lia|].
  split; [assumption|]. split; [assumption|]. split; [assumption|].
  split; [assumption|].
  repeat (split; [assumption|]).
  rewrite Hw. unfold to_unsigned. Z.div_mod_to_equations. lia.
Qed.

(** ** Colour directions *)

Lemma channel_mono c1 c2 :
  - 2 ^ 30 <= c1 -> c1 <= c2 -> c2 <= 2 ^ 30 -> channel c1 <= channel c2.
Proof.
  intros H1 Hle H2. rewrite !channel_exact by lia.
  apply clamp_mono. rewrite !shiftr10_div.
  apply Z.add_le_mono_r, Z.div_le_mono; lia.
Qed.

(** X8. Red grows with the luma and V samples and does not depend on U;
    blue grows with the luma and U samples and does not depend on V;
    green grows with luma and falls as U or V grows. *)
Theorem colour_directions (yb yb' ub ub' vb vb' : Z) :
  let px := argb (luma yb) (chroma ub) (chroma vb) in
  let px' := argb (luma yb') (chroma ub') (chroma vb') in
  ubyte yb <= ubyte yb' ->
  (ubyte vb <= ubyte vb' -> red px <= red px')
  /\ (ubyte ub <= ubyte ub' -> blue px <= blue px')
  /\ (ubyte ub' <= ubyte ub -> ubyte vb' <= ubyte vb ->
      green px <= green px').
Proof.
  intros px px' Hy.
  destruct (argb_fields (luma yb) (chroma ub) (chroma vb))
    as (_ & Hr & Hg & Hb).
  destruct (argb_fields (luma yb') (chroma ub') (chroma vb'))
    as (_ & Hr' & Hg' & Hb').
  subst px px'. rewrite Hr, Hg, Hb, Hr', Hg', Hb'.
  pose proof (ubyte_range yb). pose proof (ubyte_range yb').
  pose proof (ubyte_range ub). pose proof (ubyte_range ub').
  pose proof (ubyte_range vb). pose proof (ubyte_range vb').
  pose proof (luma_range yb). pose proof (luma_range yb').
  pose proof (chroma_range ub). pose proof (chroma_range ub').
  pose proof (chroma_range vb). pose proof (chroma_range vb').
  rewrite !r_pre_exact, !g_pre_exact, !b_pre_exact by lia.
  rewrite !luma_max, !chroma_sub in *.
  split; [|split]; intros; apply channel_mono; lia.
Qed.

Lemma colour_directions_witness :
  red (argb (luma 81) (chroma 90) (chroma 128))
  <= red (argb (luma 81) (chroma 200) (chroma 240))
  /\ blue (argb (luma 81) (chroma 90) (chroma 128))
     <= blue (argb (luma 100) (chroma 90) (chroma 7))
  /\ green (argb (luma 81) (chroma 90) (chroma 128))
     <= green (argb (luma 81) (chroma 60) (chroma 100)).
Proof.
  split; [|split].
  - apply (colour_directions 81 81 90 200 128 240); vm_compute; discriminate.
  - apply (colour_directions 81 100 90 90 128 7); vm_compute; discriminate.
  - apply (colour_directions 81 81 90 60 128 100); vm_compute; discriminate.
Defined.

(** ** The gray axis outside the studio range *)

(** X9. With neutral chroma the channel value is never below 2: it is 2
    exactly for luma samples up to 16, 255 exactly from 234 upwards, and
    non-decreasing over all of [0, 255]. *)
Theorem gray_level_profile (Y1 Y2 : Z) :
  0 <= Y1 <= 255 -> 0 <= Y2 <= 255 ->
  2 <= gray_level Y1 <= 255
  /\ (gray_level Y1 = 2 <-> Y1 <= 16)
  /\ (gray_level Y1 = 255 <-> 234 <= Y1)
  /\ (Y1 <= Y2 -> gray_level Y1 <= gray_level Y2).
Proof.
  intros H1 H2.
  assert (Hmono : Y1 <= Y2 -> gray_level Y1 <= gray_level Y2)
    by (intros Hle; apply gray_level_le; lia).
  assert (Hg : gray_level Y1
               = clamp (1192 * Z.max 0 (Y1 - 16) / 1024 + 2)).
  { now rewrite gray_level_eq, luma_max, ubyte_small, shiftr10_div by lia. }
  set (q := 1192 * Z.max 0 (Y1 - 16) / 1024) in Hg.
  assert (Hq : 1024 * q <= 1192 * Z.max 0 (Y1 - 16) < 1024 * q + 1024).
  { subst q. Z.div_mod_to_equations. lia. }
  revert Hmono. generalize (gray_level Y2). rewrite Hg. intros g2 Hmono.
  destruct (clamp_cases (q + 2)) as [[Hc1 Hc]|[[Hc1 Hc]|[Hc1 Hc]]];
    rewrite Hc in *; repeat split; (lia || exact Hmono).
Qed.

Lemma gray_level_profile_witness :
  2 <= gray_level 126 <= 255
  /\ (gray_level 126 = 2 <-> 126 <= 16)
  /\ (gray_level 126 = 255 <-> 234 <= 126)
  /\ (126 <= 200 -> gray_level 126 <= gray_level 200).
Proof. apply (gray_level_profile 126 200); lia. Defined.

(** ** The chroma cursor *)

(** X10. When the input covers the frame, the [int] arithmetic that
    places the chroma cursor does not wrap: row [i] starts reading chroma
    at [width*height + (i / 2) * width], inside the input and at or
    after the end of the luma plane, and the two luma rows [2r] and
    [2r + 1] start at the same offset. *)
Theorem chroma_cursor_start yuv width height i :
  enough_input yuv width height -> 0 <= i < height ->
  row_uvp width height i = width * height + i / 2 * width
  /\ width * height <= row_uvp width height i
  /\ row_uvp width height i + 2 <= Z.of_nat (length yuv)
  /\ row_uvp width height (2 * (i / 2)) = row_uvp width height i.
Proof.
  intros (Hw & Hh & Hyl & Hys) Hi.
  pose proof (row_fits width height i Hw Hi) as [Hr0 Hr1].
  pose proof (chroma_fits width height i 0 Hw Hi ltac:(lia))
    as (Hc0 & _ & Hc1).
  change (2 * (0 / 2)) with 0 in Hc1.
  assert (Hrow : forall j, j / 2 = i / 2 ->
            row_uvp width height j = width * height + i / 2 * width).
  { intros j Hj. unfold row_uvp, frameSize. rewrite shiftr1_div, Hj.
    rewrite (wrap32_id (width * height)) by (unfold int32; lia).
    rewrite (wrap32_id (i / 2 * width)) by (unfold int32; lia).
    apply wrap32_id. unfold int32. lia. }
  rewrite (Hrow i eq_refl).
  split; [reflexivity|]. split; [lia|]. split; [lia|].
  apply Hrow. Z.div_mod_to_equations. lia.
Qed.

Lemma chroma_cursor_start_witness :
  row_uvp 4 2 1 = 4 * 2 + 1 / 2 * 4
  /\ 4 * 2 <= row_uvp 4 2 1
  /\ row_uvp 4 2 1 + 2
     <= Z.of_nat (length [16; 16; 16; 16; 16; 16; 16; 16; 1; 2; 3; 4])
  /\ row_uvp 4 2 (2 * (1 / 2)) = row_uvp 4 2 1.
Proof.
  apply (chroma_cursor_start
           [16; 16; 16; 16; 16; 16; 16; 16; 1; 2; 3; 4] 4 2 1).
  - unfold enough_input. cbn [length]. repeat split; frame_arith.
  - lia.
Defined.
